(** * scripts/install_dev_python_modules.py

    A shallow embedding of the developer bootstrap script and the proofs of
    its specification.  The script builds two [pip] command lines from the
    interpreter version, the operating-system name and one optional
    command-line argument, starts them one after the other and copies their
    output to the console. *)

From Stdlib Require Import List String Ascii NArith ZArith Bool Lia.
From Stdlib.Strings Require Import Byte.
Import ListNotations.

Local Open Scope string_scope.
Local Open Scope list_scope.

(** ** Python values used by the script *)

(** A Python [str] is a sequence of Unicode code points. *)
Definition str := list N.

(** A Python [bytes] object. *)
Definition bytes := list byte.

(** [py "..."] is the [str] literal with the given (ASCII) text. *)
Definition py (x : string) : str :=
  map N_of_ascii (list_ascii_of_string x).

Definition str_eq_dec : forall a b : str, {a = b} + {a <> b} :=
  list_eq_dec N.eq_dec.

(** [a == b] on [str]. *)
Definition str_eqb (a b : str) : bool :=
  if str_eq_dec a b then true else false.

(** Truth value of a [str]: every string but the empty one is true. *)
Definition truthy (x : str) : bool :=
  match x with
  | [] => false
  | _ :: _ => true
  end.

(** [sep.join(l)]. *)
Fixpoint join (sep : str) (l : list str) : str :=
  match l with
  | [] => []
  | [x] => x
  | x :: rest => x ++ sep ++ join sep rest
  end.

(** [sys.version_info]: (major, minor, micro, releaselevel, serial). *)
Record version_info := {
  major : Z;
  minor : Z;
  micro : Z;
  releaselevel : str;
  serial : Z
}.

(** Python compares tuples lexicographically: the first pair of elements
    that differ decides, and when one tuple is a prefix of the other the
    longer one is the greater.  [tuple_ge a b] is [a >= b] on tuples of
    integers. *)
Fixpoint tuple_ge (a b : list Z) : bool :=
  match a, b with
  | _, [] => true
  | [], _ :: _ => false
  | x :: a', y :: b' => if Z.eqb x y then tuple_ge a' b' else Z.leb y x
  end.

(** The integer components that lead [sys.version_info]; the string
    component [releaselevel] sits at index 3, which a comparison with a pair
    never reaches. *)
Definition int_prefix (v : version_info) : list Z :=
  [major v; minor v; micro v].

(** [def is_39(): return sys.version_info >= (3, 9)] *)
Definition is_39 (v : version_info) : bool :=
  tuple_ge (int_prefix v) [3; 9]%Z.

(** ** The install target list *)

Definition toolchain_pins : list str :=
  [py "Cython==0.29.21"; py "numpy==1.18.5"].

(** The double-quote character, and a text between double quotes. *)
Definition dquote : str := [34%N].

Definition quoted (x : str) : str := dquote ++ x ++ dquote.

Definition common_targets : list str :=
  [ py "awscli";
    py "-e python_modules/dagster[test]";
    py "-e python_modules/dagster-graphql";
    py "-e python_modules/dagster-test";
    py "-e python_modules/dagit";
    py "-e python_modules/automation";
    py "-e python_modules/libraries/dagster-pandas";
    py "-e python_modules/libraries/dagster-aws[test]";
    py "-e python_modules/libraries/dagster-celery";
    py "-e python_modules/libraries/dagster-celery-docker";
    py "-e python_modules/libraries/dagster-cron";
    py "-e " ++ quoted (py "python_modules/libraries/dagster-dask[yarn,pbs,kube]");
    py "-e python_modules/libraries/dagster-datadog";
    py "-e python_modules/libraries/dagster-dbt";
    py "-e python_modules/libraries/dagster-docker";
    py "-e python_modules/libraries/dagster-gcp";
    py "-e python_modules/libraries/dagster-k8s";
    py "-e python_modules/libraries/dagster-celery-k8s";
    py "-e python_modules/libraries/dagster-github";
    py "-e python_modules/libraries/dagster-mysql";
    py "-e python_modules/libraries/dagster-pagerduty";
    py "-e python_modules/libraries/dagster-papertrail";
    py "-e python_modules/libraries/dagster-postgres";
    py "-e python_modules/libraries/dagster-prometheus";
    py "-e python_modules/libraries/dagster-spark";
    py "-e python_modules/libraries/dagster-pyspark";
    py "-e python_modules/libraries/dagster-databricks";
    py "-e python_modules/libraries/dagster-shell";
    py "-e python_modules/libraries/dagster-slack";
    py "-e python_modules/libraries/dagster-ssh";
    py "-e python_modules/libraries/dagster-twilio";
    py "-e python_modules/libraries/lakehouse";
    py "-e python_modules/libraries/dagster-airflow";
    py "-e integration_tests/python_modules/dagster-k8s-test-infra";
    py "-r scala_modules/scripts/requirements.txt";
    py "-e python_modules/libraries/dagster-azure";
    py "-e helm/dagster/schema[test]" ].

Definition dagster_ge : str := py "-e python_modules/libraries/dagster-ge".

Definition pre_39_targets : list str :=
  [ py "-e python_modules/libraries/dagster-snowflake";
    py "-e python_modules/libraries/dagstermill";
    py "-e " ++ quoted (py "examples/airline_demo[full]") ].

(** The value of the local variable [install_targets] of [main] once all
    its conditional appends are done: it starts empty and grows by four
    [+=], two of them under [is_39()], one under [os.name]. *)
Definition install_targets (v : version_info) (os_name : str) : list str :=
  let install_targets := [] in
  let install_targets :=
    if is_39 v then install_targets ++ toolchain_pins else install_targets in
  let install_targets := install_targets ++ common_targets in
  let install_targets :=
    if negb (str_eqb os_name (py "nt"))
    then install_targets ++ [dagster_ge] else install_targets in
  let install_targets :=
    if negb (is_39 v)
    then install_targets ++ pre_39_targets else install_targets in
  install_targets.

(** ** The two command lines *)

(** [if quiet: cmd.append(quiet)] *)
Definition append_if_quiet (cmd : list str) (quiet : str) : list str :=
  if truthy quiet then cmd ++ [quiet] else cmd.

(** The list [cmd] handed to the first [subprocess.Popen]. *)
Definition first_cmd (quiet : str) : list str :=
  let cmd :=
    [py "pip"; py "--no-cache-dir"; py "install"; py "pyspark>=3.0.1"] in
  append_if_quiet cmd quiet.

(** The list [cmd] that is joined into the second, shell command. *)
Definition combined_cmd (v : version_info) (os_name : str) (quiet : str)
  : list str :=
  let install_targets := install_targets v os_name in
  let cmd := [py "pip"; py "install"; py "--no-deps"] ++ install_targets in
  let cmd := append_if_quiet cmd quiet in
  let cmd := cmd ++ ([py "&&"; py "pip"; py "install"] ++ install_targets) in
  append_if_quiet cmd quiet.

(** ** Decoding and stripping the subprocess output *)

Definition in_range (lo hi x : N) : bool := (lo <=? x)%N && (x <=? hi)%N.

(** A UTF-8 continuation byte, 10xxxxxx. *)
Definition is_cont (x : N) : bool := in_range 0x80 0xBF x.

(** The payload of a continuation byte. *)
Definition low6 (x : N) : N := N.land x 0x3F.

(** Strict UTF-8 decoding of a sequence of byte values: shortest forms only,
    no surrogates, nothing above U+10FFFF.  [None] stands for
    [UnicodeDecodeError]. *)
Fixpoint utf8_decode (b : list N) : option str :=
  match b with
  | [] => Some []
  | b0 :: r0 =>
      if (b0 <? 0x80)%N then
        option_map (cons b0) (utf8_decode r0)
      else if in_range 0xC2 0xDF b0 then
        match r0 with
        | b1 :: r1 =>
            if is_cont b1
            then option_map
                   (cons (N.shiftl (N.land b0 0x1F) 6 + low6 b1)%N)
                   (utf8_decode r1)
            else None
        | _ => None
        end
      else if in_range 0xE0 0xEF b0 then
        match r0 with
        | b1 :: b2 :: r2 =>
            if (if (b0 =? 0xE0)%N then in_range 0xA0 0xBF b1
                else if (b0 =? 0xED)%N then in_range 0x80 0x9F b1
                else is_cont b1) && is_cont b2
            then option_map
                   (cons (N.shiftl (N.land b0 0x0F) 12
                          + N.shiftl (low6 b1) 6 + low6 b2)%N)
                   (utf8_decode r2)
            else None
        | _ => None
        end
      else if in_range 0xF0 0xF4 b0 then
        match r0 with
        | b1 :: b2 :: b3 :: r3 =>
            if (if (b0 =? 0xF0)%N then in_range 0x90 0xBF b1
                else if (b0 =? 0xF4)%N then in_range 0x80 0x8F b1
                else is_cont b1) && is_cont b2 && is_cont b3
            then option_map
                   (cons (N.shiftl (N.land b0 0x07) 18
                          + N.shiftl (low6 b1) 12
                          + N.shiftl (low6 b2) 6 + low6 b3)%N)
                   (utf8_decode r3)
            else None
        | _ => None
        end
      else None
  end.

(** [output.decode("utf-8")] *)
Definition decode (output : bytes) : option str :=
  utf8_decode (map Byte.to_N output).

(** The code points for which [str.isspace] holds, the ones [str.strip]
    removes. *)
Definition isspace (c : N) : bool :=
  in_range 0x09 0x0D c || in_range 0x1C 0x20 c
  || (c =? 0x85)%N || (c =? 0xA0)%N || (c =? 0x1680)%N
  || in_range 0x2000 0x200A c || (c =? 0x2028)%N || (c =? 0x2029)%N
  || (c =? 0x202F)%N || (c =? 0x205F)%N || (c =? 0x3000)%N.

Fixpoint lstrip (x : str) : str :=
  match x with
  | c :: rest => if isspace c then lstrip rest else x
  | [] => []
  end.

Definition rstrip (x : str) : str := rev (lstrip (rev x)).

(** [x.strip()] *)
Definition strip (x : str) : str := rstrip (lstrip x).

(** ** Effects: subprocesses and the console *)

Inductive exn := OSError | UnicodeDecodeError | UnicodeEncodeError.

(** Why a call of [print] can fail: the text cannot be encoded for the
    console, or the write to the console fails. *)
Inductive print_error := EncodeError | WriteError.

(** The exception [print] raises then: [UnicodeEncodeError], or [OSError]
    (of which [BrokenPipeError] is a kind). *)
Definition print_exn (err : print_error) : exn :=
  match err with
  | EncodeError => UnicodeEncodeError
  | WriteError => OSError
  end.

(** The places where the script prints: the command line of a subprocess,
    and the output read on a turn of the read loop of a subprocess.  No
    place is passed twice in a run. *)
Inductive print_site :=
| CommandLine (pid : nat)
| OutputLine (pid : nat) (turn : nat).

(** [subprocess.PIPE] and [subprocess.STDOUT]. *)
Inductive redirection := PIPE | STDOUT.

(** The first argument of [Popen]: an argument list, or one string for the
    shell. *)
Inductive popen_args :=
| ArgList (l : list str)
| ArgString (s : str).

Record popen_call := {
  args : popen_args;
  stdout : redirection;
  stderr : redirection;
  shell : bool
}.

(** What the script does to the outside world, in order.  Subprocesses are
    numbered in the order they are started.  [Print text] is the call
    [print(text)], whether it succeeds or raises. *)
Inductive event :=
| Popen (pid : nat) (c : popen_call)
| Readline (pid : nat) (output : bytes)
| Poll (pid : nat) (status : option Z)
| Print (text : str).

(** What one turn of a read loop gets from its subprocess: the result of
    [p.stdout.readline()], then the result of [p.poll()], which is [None]
    while the subprocess runs and its exit code afterwards.  Reading the
    pipe and polling are taken to succeed. *)
Definition observation := (bytes * option Z)%type.

(** The outside world of one run.  For each of the two [Popen] calls:
    [None] when the call fails with [OSError] (no such program), else the
    observations the read loop makes, turn by turn.  A list that ends before
    any exit code stands for a subprocess whose end is not observed.  For
    each place where the script prints: [None] when the [print] there
    succeeds, else why it fails. *)
Record env := {
  version : version_info;
  os_name : str;
  first_process : option (list observation);
  second_process : option (list observation);
  print_fate : print_site -> option print_error
}.

(** How a piece of the script ends: it returns a value, raises, or is still
    looping when the observations run out. *)
Inductive result (A : Type) :=
| Ok (a : A)
| Raise (e : exn)
| Looping.
Arguments Ok {A} a.
Arguments Raise {A} e.
Arguments Looping {A}.

(** A computation: the events it performs and how it ends. *)
Definition M (A : Type) : Type := (list event * result A)%type.

Definition ret {A} (a : A) : M A := ([], Ok a).

Definition bind {A B} (m : M A) (k : A -> M B) : M B :=
  match m with
  | (t, Ok a) => let (t', r) := k a in (t ++ t', r)
  | (t, Raise e) => (t, Raise e)
  | (t, Looping) => (t, Looping)
  end.

Notation "x <- m ;; k" := (bind m (fun x => k))
  (at level 61, m at next level, right associativity).
Notation "m ;; k" := (bind m (fun _ => k))
  (at level 61, right associativity).

Definition emit (ev : event) : M unit := ([ev], Ok tt).

Definition raise {A} (e : exn) : M A := ([], Raise e).

Definition trace {A} (m : M A) : list event := fst m.

Definition outcome {A} (m : M A) : result A := snd m.

(** [print(text)], with the outside world's answer [fate]. *)
Definition print (fate : option print_error) (text : str) : M unit :=
  emit (Print text) ;;
  match fate with
  | None => ret tt
  | Some err => raise (print_exn err)
  end.

(** A started subprocess: its number and what will be observed of it. *)
Definition process := (nat * list observation)%type.

(** [subprocess.Popen(...)] as the [pid]-th subprocess of the run, with the
    outside world's answer [w]. *)
Definition Popen_ (pid : nat) (c : popen_call) (w : option (list observation))
  : M process :=
  match w with
  | None => raise OSError
  | Some obs => emit (Popen pid c) ;; ret (pid, obs)
  end.

(** The body of [if output: print(output.decode("utf-8").strip())]. *)
Definition print_output (fate : option print_error) (output : bytes)
  : M unit :=
  match output with
  | [] => ret tt
  | _ :: _ =>
      match decode output with
      | None => raise UnicodeDecodeError
      | Some text => print fate (strip text)
      end
  end.

(** The loop
[[
    while True:
        output = p.stdout.readline()
        if p.poll() is not None:
            break
        if output:
            print(output.decode("utf-8").strip())
]]
    one observation per turn, from turn number [turn] on; [w] tells what
    becomes of each [print]. *)
Fixpoint read_loop_from (w : print_site -> option print_error)
    (pid turn : nat) (obs : list observation) : M unit :=
  match obs with
  | [] => ([], Looping)
  | (output, status) :: rest =>
      emit (Readline pid output) ;;
      emit (Poll pid status) ;;
      match status with
      | Some _ => ret tt
      | None =>
          print_output (w (OutputLine pid turn)) output ;;
          read_loop_from w pid (S turn) rest
      end
  end.

Definition read_loop (w : print_site -> option print_error) (p : process)
  : M unit :=
  read_loop_from w (fst p) 0 (snd p).

(** [def main(quiet)] *)
Definition main (e : env) (quiet : str) : M unit :=
  let cmd := first_cmd quiet in
  p <- Popen_ 0 {| args := ArgList cmd; stdout := PIPE; stderr := STDOUT;
                   shell := false |} (first_process e) ;;
  print (print_fate e (CommandLine 0)) (join (py " ") cmd) ;;
  read_loop (print_fate e) p ;;
  let cmd := combined_cmd (version e) (os_name e) quiet in
  p <- Popen_ 1 {| args := ArgString (join (py " ") cmd); stdout := PIPE;
                   stderr := STDOUT; shell := true |} (second_process e) ;;
  print (print_fate e (CommandLine 1)) (join (py " ") cmd) ;;
  read_loop (print_fate e) p.

(** [main(quiet=sys.argv[1] if len(sys.argv) > 1 else "")] *)
Definition script (e : env) (argv : list str) : M unit :=
  main e (if Nat.ltb 1 (List.length argv) then nth 1 argv [] else []).

(** ** Vocabulary of the statements *)

(** The version is at least (3, 9). *)
Definition at_least_3_9 (v : version_info) : Prop :=
  (3 < major v \/ (major v = 3 /\ 9 <= minor v))%Z.

(** The version is below (3, 9). *)
Definition below_3_9 (v : version_info) : Prop :=
  (major v < 3 \/ (major v = 3 /\ minor v < 9))%Z.

(** [x in l], decided. *)
Definition mem (x : str) (l : list str) : bool :=
  if in_dec str_eq_dec x l then true else false.

(** The [Popen] calls of [main]. *)
Definition first_call (quiet : str) : popen_call :=
  {| args := ArgList (first_cmd quiet);
     stdout := PIPE; stderr := STDOUT; shell := false |}.

Definition second_call (e : env) (quiet : str) : popen_call :=
  {| args := ArgString
               (join (py " ") (combined_cmd (version e) (os_name e) quiet));
     stdout := PIPE; stderr := STDOUT; shell := true |}.

(** The subprocess an event belongs to, if any. *)
Definition event_pid (ev : event) : option nat :=
  match ev with
  | Popen pid _ | Readline pid _ | Poll pid _ => Some pid
  | Print _ => None
  end.

(** What follows a [print]: the computation [m] when the [print] succeeds,
    its exception when it fails. *)
Definition after_print {A} (fate : option print_error) (m : M A) : M A :=
  match fate with
  | None => m
  | Some err => ([], Raise (print_exn err))
  end.

(** What [main] does with a started subprocess once the call that prints
    its command is made: if that [print] succeeds, the read loop. *)
Definition phase (e : env) (pid : nat) (obs : list observation) : M unit :=
  after_print (print_fate e (CommandLine pid))
    (read_loop_from (print_fate e) pid 0 obs).



(** The subprocess is seen to end: some [poll] gives an exit code. *)
Definition completes (obs : list observation) : Prop :=
  exists output code, In (output, Some code) obs.

(** The outputs read on the turns where [poll] finds the subprocess still
    running. *)
Fixpoint running_outputs (obs : list observation) : list bytes :=
  match obs with
  | (output, None) :: rest => output :: running_outputs rest
  | _ => []
  end.

(** The bytes are valid UTF-8. *)
Definition decodable (output : bytes) : Prop := decode output <> None.

(** Every [print] of a read loop succeeds: the one on turn [turn + k] for
    each non-empty [k]-th output of the list. *)
Definition prints_succeed (w : print_site -> option print_error)
    (pid turn : nat) (outputs : list bytes) : Prop :=
  forall k output,
    nth_error outputs k = Some output ->
    output <> [] ->
    w (OutputLine pid (turn + k)) = None.

(** The same world with every exit code [c] replaced by [f c]. *)
Definition recode_observation (f : Z -> Z) (ob : observation) : observation :=
  (fst ob, option_map f (snd ob)).

Definition recode (f : Z -> Z) (e : env) : env :=
  {| version := version e;
     os_name := os_name e;
     first_process := option_map (map (recode_observation f)) (first_process e);
     second_process :=
       option_map (map (recode_observation f)) (second_process e);
     print_fate := print_fate e |}.

Definition recode_event (f : Z -> Z) (ev : event) : event :=
  match ev with
  | Poll pid status => Poll pid (option_map f status)
  | _ => ev
  end.

(** ** Sample runs *)

Definition python_3_8_5 : version_info :=
  {| major := 3; minor := 8; micro := 5;
     releaselevel := py "final"; serial := 0 |}.

Definition python_3_9_0 : version_info :=
  {| major := 3; minor := 9; micro := 0;
     releaselevel := py "final"; serial := 0 |}.

(** "Collecting pyspark" and a newline. *)
Definition collecting_line : bytes :=
  [x43; x6f; x6c; x6c; x65; x63; x74; x69; x6e; x67; x20;
   x70; x79; x73; x70; x61; x72; x6b; x0a].

(** Both subprocesses print one line, then end: the first with exit code 0,
    the second with exit code 1.  Every [print] succeeds. *)
Definition sample_env : env :=
  {| version := python_3_9_0;
     os_name := py "posix";
     first_process := Some [(collecting_line, None); ([], Some 0%Z)];
     second_process := Some [(collecting_line, None); ([], Some 1%Z)];
     print_fate := fun _ => None |}.

(** The same interpreter and system, with subprocesses that end at once. *)
Definition sample_env_silent : env :=
  {| version := python_3_9_0;
     os_name := py "posix";
     first_process := Some [([], Some 0%Z)];
     second_process := Some [([], Some 0%Z)];
     print_fate := fun _ => None |}.

(** Two spaces, "ok", a space and a newline. *)
Definition padded_line : bytes := [x20; x20; x6f; x6b; x20; x0a].

(** The byte 0xFF, which no UTF-8 text holds, and a newline. *)
Definition not_utf8_line : bytes := [xff; x0a].

Definition env_padded : env :=
  {| version := python_3_8_5;
     os_name := py "posix";
     first_process := Some [(padded_line, None); ([], Some 0%Z)];
     second_process := Some [([], Some 2%Z)];
     print_fate := fun _ => None |}.

Definition env_not_utf8 : env :=
  {| version := python_3_8_5;
     os_name := py "posix";
     first_process := Some [(not_utf8_line, None); ([], Some 0%Z)];
     second_process := Some [([], Some 0%Z)];
     print_fate := fun _ => None |}.

(** The first subprocess prints "caf", e with an acute accent and a
    newline, in UTF-8, to a console that takes ASCII only: the [print] of
    that line fails. *)
Definition env_ascii_console : env :=
  {| version := python_3_8_5;
     os_name := py "posix";
     first_process :=
       Some [([x63; x61; x66; xc3; xa9; x0a], None); ([], Some 0%Z)];
     second_process := Some [([], Some 0%Z)];
     print_fate := fun site =>
                     match site with
                     | OutputLine 0 0 => Some EncodeError
                     | _ => None
                     end |}.

(** Nothing can be written to the console, as when standard output is a
    full device: every [print] fails. *)
Definition env_console_full : env :=
  {| version := python_3_8_5;
     os_name := py "posix";
     first_process := Some [([], Some 0%Z)];
     second_process := Some [([], Some 0%Z)];
     print_fate := fun _ => Some WriteError |}.

(** No [pip] program can be found. *)
Definition env_no_pip : env :=
  {| version := python_3_8_5;
     os_name := py "posix";
     first_process := None;
     second_process := Some [([], Some 127%Z)];
     print_fate := fun _ => None |}.

(** [pat] is the beginning of [text]. *)
Fixpoint starts_with (pat text : str) : bool :=
  match pat, text with
  | [], _ => true
  | _ :: _, [] => false
  | p :: pat', c :: text' => N.eqb p c && starts_with pat' text'
  end.

(** The number of places of [text] where [pat] begins. *)
Fixpoint occurrences (pat text : str) : nat :=
  match text with
  | [] => 0
  | _ :: rest =>
      (if starts_with pat text then 1 else 0) + occurrences pat rest
  end.

(** ** Vocabulary of the further properties *)

(** The texts printed, in order. *)
Definition console (t : list event) : list str :=
  flat_map (fun ev => match ev with
                      | Print text => [text]
                      | _ => []
                      end) t.

(** The subprocesses started, in order, each with its call. *)
Definition started (t : list event) : list (nat * popen_call) :=
  flat_map (fun ev => match ev with
                      | Popen pid c => [(pid, c)]
                      | _ => []
                      end) t.

(** What a read loop prints for an output it can decode: nothing for an
    empty read, else the stripped text. *)
Definition shown (output : bytes) : list str :=
  match output with
  | [] => []
  | _ :: _ =>
      match decode output with
      | Some text => [strip text]
      | None => []
      end
  end.

(** The text of a command as [main] prints it. *)
Definition command_text (c : popen_call) : str :=
  match args c with
  | ArgList l => join (py " ") l
  | ArgString s => s
  end.

(** Every byte is below 0x80. *)
Definition ascii_only (output : bytes) : Prop :=
  Forall (fun b => (Byte.to_N b < 0x80)%N) output.

(** Every code point is white space. *)
Definition all_space (x : str) : Prop :=
  Forall (fun c => isspace c = true) x.

(** No white space at either end. *)
Definition trimmed (x : str) : Prop :=
  match x with
  | [] => True
  | c :: _ => isspace c = false /\ isspace (last x c) = false
  end.

(** Both subprocesses print one line and end, under Python 3.8 on
    Windows. *)
Definition sample_env_nt : env :=
  {| version := python_3_8_5;
     os_name := py "nt";
     first_process := Some [(collecting_line, None); ([], Some 0%Z)];
     second_process := Some [(padded_line, None); ([], Some 0%Z)];
     print_fate := fun _ => None |}.

(** * Proofs *)

Arguments first_cmd : simpl never.
Arguments combined_cmd : simpl never.
Arguments join : simpl never.
Arguments py : simpl never.

(** ** Interpreter versions *)

Lemma is_39_true_iff (v : version_info) :
  is_39 v = true <-> at_least_3_9 v.
Proof.
  unfold is_39, int_prefix, at_least_3_9, tuple_ge.
  destruct (Z.eqb_spec (major v) 3) as [Hmaj | Hmaj].
  - destruct (Z.eqb_spec (minor v) 9) as [Hmin | Hmin].
    + split; [intros _; right; lia | reflexivity].
    + rewrite Z.leb_le. lia.
  - rewrite Z.leb_le. lia.
Qed.

Lemma is_39_false_iff (v : version_info) :
  is_39 v = false <-> below_3_9 v.
Proof.
  rewrite <- not_true_iff_false, is_39_true_iff.
  unfold at_least_3_9, below_3_9. lia.
Qed.

(** ** Membership in the install target list *)

Lemma mem_true (x : str) (l : list str) : mem x l = true -> In x l.
Proof. unfold mem. destruct (in_dec str_eq_dec x l); [trivial | discriminate]. Qed.

Lemma mem_false (x : str) (l : list str) : mem x l = false -> ~ In x l.
Proof. unfold mem. destruct (in_dec str_eq_dec x l); [discriminate | trivial]. Qed.

Lemma str_eqb_eq (a b : str) : str_eqb a b = true <-> a = b.
Proof.
  unfold str_eqb. destruct (str_eq_dec a b); split; congruence.
Qed.

Lemma str_eqb_neq (a b : str) : str_eqb a b = false <-> a <> b.
Proof.
  unfold str_eqb. destruct (str_eq_dec a b); split; congruence.
Qed.

(** The list has one of four values, chosen by the two tests. *)
Lemma install_targets_cases (v : version_info) (os : str) :
  install_targets v os =
    (if is_39 v then toolchain_pins else [])
    ++ common_targets
    ++ (if str_eqb os (py "nt") then [] else [dagster_ge])
    ++ (if is_39 v then [] else pre_39_targets).
Proof.
  unfold install_targets.
  destruct (is_39 v), (str_eqb os (py "nt")); cbn [negb app];
    rewrite <- ?app_assoc, ?app_nil_r; reflexivity.
Qed.

(** Decides membership of a concrete string in the target list, whatever
    the version and the system are. *)
Ltac decide_target :=
  rewrite install_targets_cases;
  repeat match goal with
         | H : is_39 _ = _ |- _ => rewrite H
         | H : str_eqb _ _ = _ |- _ => rewrite H
         end;
  first [ apply mem_true; vm_compute; reflexivity
        | apply mem_false; vm_compute; reflexivity ].

(** ** The version and platform gates *)

(** C1: at version (3, 9) and above the install target list holds both
    pinned build-toolchain packages, "Cython==0.29.21" and "numpy==1.18.5";
    below (3, 9) it holds neither. *)
Theorem toolchain_pins_by_version (v : version_info) (os : str) :
  (at_least_3_9 v ->
     In (py "Cython==0.29.21") (install_targets v os)
     /\ In (py "numpy==1.18.5") (install_targets v os))
  /\ (below_3_9 v ->
     ~ In (py "Cython==0.29.21") (install_targets v os)
     /\ ~ In (py "numpy==1.18.5") (install_targets v os)).
Proof.
  split; intros Hv.
  - apply is_39_true_iff in Hv.
    destruct (str_eqb os (py "nt")) eqn:Hos; split; decide_target.
  - apply is_39_false_iff in Hv.
    destruct (str_eqb os (py "nt")) eqn:Hos; split; decide_target.
Qed.

Lemma toolchain_pins_by_version_witness :
  (In (py "Cython==0.29.21") (install_targets python_3_9_0 (py "posix"))
   /\ In (py "numpy==1.18.5") (install_targets python_3_9_0 (py "posix")))
  /\ (~ In (py "Cython==0.29.21") (install_targets python_3_8_5 (py "posix"))
      /\ ~ In (py "numpy==1.18.5") (install_targets python_3_8_5 (py "posix"))).
Proof.
  split.
  - apply (proj1 (toolchain_pins_by_version python_3_9_0 (py "posix"))).
    right; simpl; lia.
  - apply (proj2 (toolchain_pins_by_version python_3_8_5 (py "posix"))).
    right; simpl; lia.
Defined.

(** C2: when the operating-system name is "nt" the install target list
    does not hold "-e python_modules/libraries/dagster-ge"; under every
    other name it does. *)
Theorem dagster_ge_by_platform (v : version_info) (os : str) :
  (os = py "nt" ->
     ~ In (py "-e python_modules/libraries/dagster-ge") (install_targets v os))
  /\ (os <> py "nt" ->
     In (py "-e python_modules/libraries/dagster-ge") (install_targets v os)).
Proof.
  split; intros Hos.
  - apply str_eqb_eq in Hos. destruct (is_39 v) eqn:Hv; decide_target.
  - apply str_eqb_neq in Hos. destruct (is_39 v) eqn:Hv; decide_target.
Qed.

Lemma dagster_ge_by_platform_witness :
  ~ In (py "-e python_modules/libraries/dagster-ge")
       (install_targets python_3_9_0 (py "nt"))
  /\ In (py "-e python_modules/libraries/dagster-ge")
        (install_targets python_3_9_0 (py "posix")).
Proof.
  split.
  - apply (proj1 (dagster_ge_by_platform python_3_9_0 (py "nt"))).
    reflexivity.
  - apply (proj2 (dagster_ge_by_platform python_3_9_0 (py "posix"))).
    vm_compute; discriminate.
Defined.

(** C3: below version (3, 9) the install target list holds the three
    entries "-e python_modules/libraries/dagster-snowflake",
    "-e python_modules/libraries/dagstermill" and
    -e "examples/airline_demo[full]" (the path between double quotes); at
    (3, 9) and above it holds none of them. *)
Theorem pre_39_targets_by_version (v : version_info) (os : str) :
  (below_3_9 v ->
     In (py "-e python_modules/libraries/dagster-snowflake")
        (install_targets v os)
     /\ In (py "-e python_modules/libraries/dagstermill")
           (install_targets v os)
     /\ In (py "-e " ++ quoted (py "examples/airline_demo[full]"))
           (install_targets v os))
  /\ (at_least_3_9 v ->
     ~ In (py "-e python_modules/libraries/dagster-snowflake")
          (install_targets v os)
     /\ ~ In (py "-e python_modules/libraries/dagstermill")
             (install_targets v os)
     /\ ~ In (py "-e " ++ quoted (py "examples/airline_demo[full]"))
             (install_targets v os)).
Proof.
  split; intros Hv.
  - apply is_39_false_iff in Hv.
    destruct (str_eqb os (py "nt")) eqn:Hos; repeat split; decide_target.
  - apply is_39_true_iff in Hv.
    destruct (str_eqb os (py "nt")) eqn:Hos; repeat split; decide_target.
Qed.

Lemma pre_39_targets_by_version_witness :
  (In (py "-e python_modules/libraries/dagster-snowflake")
      (install_targets python_3_8_5 (py "nt"))
   /\ In (py "-e python_modules/libraries/dagstermill")
         (install_targets python_3_8_5 (py "nt"))
   /\ In (py "-e " ++ quoted (py "examples/airline_demo[full]"))
         (install_targets python_3_8_5 (py "nt")))
  /\ (~ In (py "-e python_modules/libraries/dagster-snowflake")
          (install_targets python_3_9_0 (py "nt"))
      /\ ~ In (py "-e python_modules/libraries/dagstermill")
             (install_targets python_3_9_0 (py "nt"))
      /\ ~ In (py "-e " ++ quoted (py "examples/airline_demo[full]"))
             (install_targets python_3_9_0 (py "nt"))).
Proof.
  split.
  - apply (proj1 (pre_39_targets_by_version python_3_8_5 (py "nt"))).
    right; simpl; lia.
  - apply (proj2 (pre_39_targets_by_version python_3_9_0 (py "nt"))).
    right; simpl; lia.
Defined.

(** C9: whatever the interpreter version and the operating system, the
    install target list never holds at once a 3.9 build-toolchain pin and
    one of the three packages added below 3.9: the two gates test the same
    [is_39]. *)
Theorem version_gates_exclusive (v : version_info) (os : str) :
  ~ ((In (py "Cython==0.29.21") (install_targets v os)
      \/ In (py "numpy==1.18.5") (install_targets v os))
     /\ (In (py "-e python_modules/libraries/dagster-snowflake")
            (install_targets v os)
         \/ In (py "-e python_modules/libraries/dagstermill")
              (install_targets v os)
         \/ In (py "-e " ++ quoted (py "examples/airline_demo[full]"))
              (install_targets v os))).
Proof.
  intros [Hpin Hold].
  destruct (is_39 v) eqn:Hv, (str_eqb os (py "nt")) eqn:Hos.
  1, 2: destruct Hold as [H | [H | H]]; revert H; decide_target.
  all: destruct Hpin as [H | H]; revert H; decide_target.
Qed.

(** ** Shape of the two command lines *)

Lemma append_if_quiet_app (cmd : list str) (quiet : str) :
  append_if_quiet cmd quiet = cmd ++ (if truthy quiet then [quiet] else []).
Proof.
  unfold append_if_quiet. destruct (truthy quiet);
    [reflexivity | symmetry; apply app_nil_r].
Qed.

Lemma first_cmd_eq (quiet : str) :
  first_cmd quiet =
    [py "pip"; py "--no-cache-dir"; py "install"; py "pyspark>=3.0.1"]
    ++ (if truthy quiet then [quiet] else []).
Proof. unfold first_cmd. apply append_if_quiet_app. Qed.

Lemma combined_cmd_eq (v : version_info) (os : str) (quiet : str) :
  combined_cmd v os quiet =
    ([py "pip"; py "install"; py "--no-deps"] ++ install_targets v os
       ++ (if truthy quiet then [quiet] else []))
    ++ [py "&&"]
    ++ ([py "pip"; py "install"] ++ install_targets v os
          ++ (if truthy quiet then [quiet] else [])).
Proof.
  unfold combined_cmd. rewrite !append_if_quiet_app.
  rewrite <- !app_assoc. reflexivity.
Qed.

Lemma join_cons (sep x : str) (rest : list str) :
  rest <> [] -> join sep (x :: rest) = x ++ sep ++ join sep rest.
Proof. destruct rest; [congruence | reflexivity]. Qed.

Lemma join_app (sep : str) (a b : list str) :
  a <> [] -> b <> [] ->
  join sep (a ++ b) = join sep a ++ sep ++ join sep b.
Proof.
  intros Ha Hb. induction a as [ | x a IH]; [congruence | ].
  destruct a as [ | y a].
  - cbn [app]. rewrite join_cons by exact Hb. reflexivity.
  - change ((x :: y :: a) ++ b) with (x :: (y :: a) ++ b).
    rewrite (join_cons sep x ((y :: a) ++ b)) by (cbn [app]; discriminate).
    rewrite (join_cons sep x (y :: a)) by discriminate.
    rewrite IH by discriminate. rewrite <- !app_assoc. reflexivity.
Qed.

Lemma install_targets_not_empty (v : version_info) (os : str) (l : list str) :
  install_targets v os ++ l <> [].
Proof.
  rewrite install_targets_cases. intros H.
  apply app_eq_nil in H. destruct H as [H _].
  apply app_eq_nil in H. destruct H as [_ H].
  apply app_eq_nil in H. destruct H as [H _].
  unfold common_targets in H. discriminate H.
Qed.

(** The joined text of the combined command. *)
Lemma combined_cmd_text (v : version_info) (os : str) (quiet : str) :
  join (py " ") (combined_cmd v os quiet) =
    py "pip install --no-deps "
    ++ join (py " ")
         (install_targets v os ++ (if truthy quiet then [quiet] else []))
    ++ py " && pip install "
    ++ join (py " ")
         (install_targets v os ++ (if truthy quiet then [quiet] else [])).
Proof.
  rewrite combined_cmd_eq.
  set (rest := install_targets v os ++ (if truthy quiet then [quiet] else [])).
  assert (Hrest : rest <> []) by apply install_targets_not_empty.
  rewrite join_app; [ | discriminate | discriminate].
  change ([py "&&"] ++ [py "pip"; py "install"] ++ rest)
    with ([py "&&"; py "pip"; py "install"] ++ rest).
  rewrite !join_app by (exact Hrest || discriminate).
  rewrite <- !app_assoc. reflexivity.
Qed.

(** [join] written with the list functions of the library: each element
    followed by the separator. *)
Lemma join_concat (sep : str) (l : list str) :
  l <> [] ->
  join sep l ++ sep = List.concat (map (fun x => x ++ sep) l).
Proof.
  induction l as [ | x l IH]; [congruence | intros _].
  destruct l as [ | y l].
  - cbn [join map List.concat]. rewrite app_nil_r. reflexivity.
  - rewrite join_cons by discriminate.
    change (List.concat (map (fun x => x ++ sep) (x :: y :: l)))
      with ((x ++ sep) ++ List.concat (map (fun x => x ++ sep) (y :: l))).
    rewrite <- IH by discriminate. rewrite <- !app_assoc. reflexivity.
Qed.

Lemma starts_with_app_sep (pat a b : str) (sep : N) :
  ~ In sep pat ->
  starts_with pat (a ++ sep :: b) = starts_with pat a.
Proof.
  revert a. induction pat as [ | p pat IH]; intros a Hsep.
  - destruct a; reflexivity.
  - assert (Hp : p <> sep) by (intros ->; apply Hsep; left; reflexivity).
    assert (Hpat : ~ In sep pat) by (intros H; apply Hsep; right; exact H).
    destruct a as [ | x a]; cbn [app starts_with].
    + apply N.eqb_neq in Hp. rewrite Hp. reflexivity.
    + rewrite (IH a Hpat). reflexivity.
Qed.

(** Across a character that [pat] does not hold, the occurrences of [pat]
    are those on its left and those on its right. *)
Lemma occurrences_app_sep (pat a b : str) (sep : N) :
  pat <> [] ->
  ~ In sep pat ->
  occurrences pat (a ++ sep :: b) = occurrences pat a + occurrences pat b.
Proof.
  intros Hne Hsep. induction a as [ | x a IH].
  - cbn [app occurrences].
    destruct pat as [ | p pat]; [congruence | ].
    cbn [starts_with].
    assert (Hp : p <> sep) by (intros ->; apply Hsep; left; reflexivity).
    apply N.eqb_neq in Hp. rewrite Hp. reflexivity.
  - change ((x :: a) ++ sep :: b) with (x :: (a ++ sep :: b)).
    cbn [occurrences].
    change (x :: (a ++ sep :: b)) with ((x :: a) ++ sep :: b).
    rewrite starts_with_app_sep by exact Hsep.
    rewrite IH. apply Nat.add_assoc.
Qed.

(** The text of the arguments holds a pattern without spaces where the
    text of the install targets does, and where quiet does. *)
Lemma occurrences_arguments (pat : str) (v : version_info) (os quiet : str) :
  pat <> [] ->
  ~ In 32%N pat ->
  occurrences pat
    (join (py " ")
       (install_targets v os ++ (if truthy quiet then [quiet] else [])))
  = occurrences pat (join (py " ") (install_targets v os))
    + occurrences pat quiet.
Proof.
  intros Hne Hsep. destruct quiet as [ | ch tail]; cbn [truthy].
  - rewrite app_nil_r. cbn [occurrences]. symmetry. apply Nat.add_0_r.
  - rewrite join_app;
      [ | exact (fun H => install_targets_not_empty v os []
                            (eq_trans (app_nil_r _) H))
        | discriminate].
    change (py " " ++ join (py " ") [ch :: tail])
      with (32%N :: (ch :: tail)).
    apply occurrences_app_sep; assumption.
Qed.

Lemma mem_false_N (x : N) (l : list N) :
  (if in_dec N.eq_dec x l then true else false) = false -> ~ In x l.
Proof. destruct (in_dec N.eq_dec x l); [discriminate | trivial]. Qed.

(** Neither "&&" nor "--no-deps" occurs in the text of the install
    targets. *)
Lemma targets_text_clean (v : version_info) (os : str) :
  occurrences (py "&&") (join (py " ") (install_targets v os)) = 0
  /\ occurrences (py "--no-deps") (join (py " ") (install_targets v os)) = 0.
Proof.
  rewrite install_targets_cases.
  destruct (is_39 v), (str_eqb os (py "nt")); split; vm_compute; reflexivity.
Qed.

(** ** Traces of the script *)

(** [main] in one piece: where it can stop, and what it has done by then. *)
Lemma main_unfold (e : env) (quiet : str) :
  main e quiet =
    match first_process e with
    | None => ([], Raise OSError)
    | Some obs1 =>
        let head1 :=
          [Popen 0 (first_call quiet);
           Print (join (py " ") (first_cmd quiet))] in
        match phase e 0 obs1 with
        | (t1, Ok _) =>
            match second_process e with
            | None => (head1 ++ t1, Raise OSError)
            | Some obs2 =>
                (head1 ++ t1
                   ++ [Popen 1 (second_call e quiet);
                       Print (join (py " ")
                                (combined_cmd (version e) (os_name e) quiet))]
                   ++ trace (phase e 1 obs2),
                 outcome (phase e 1 obs2))
            end
        | (t1, Raise ex) => (head1 ++ t1, Raise ex)
        | (t1, Looping) => (head1 ++ t1, Looping)
        end
    end.
Proof.
  unfold main, Popen_, read_loop, phase, after_print, first_call, second_call,
    print, emit, ret, raise.
  destruct (first_process e) as [obs1 | ]; [ | reflexivity].
  cbn [bind app fst snd].
  destruct (print_fate e (CommandLine 0)) as [err0 | ];
    cbn [bind app fst snd]; [reflexivity | ].
  destruct (read_loop_from (print_fate e) 0 0 obs1) as [t1 [[] | ex | ]];
    cbn [bind app fst snd]; try reflexivity.
  destruct (second_process e) as [obs2 | ]; cbn [bind app fst snd].
  - destruct (print_fate e (CommandLine 1)) as [err1 | ];
      cbn [bind app fst snd trace outcome].
    + reflexivity.
    + destruct (read_loop_from (print_fate e) 1 0 obs2) as [t2 r2].
      cbn [trace outcome fst snd app]. reflexivity.
  - rewrite app_nil_r. reflexivity.
Qed.

Lemma read_loop_from_cons (w : print_site -> option print_error)
    (pid turn : nat) (output : bytes) (status : option Z)
    (rest : list observation) :
  read_loop_from w pid turn ((output, status) :: rest) =
    match status with
    | Some _ => ([Readline pid output; Poll pid status], Ok tt)
    | None =>
        match print_output (w (OutputLine pid turn)) output with
        | (t, Ok _) =>
            (Readline pid output :: Poll pid None
               :: t ++ trace (read_loop_from w pid (S turn) rest),
             outcome (read_loop_from w pid (S turn) rest))
        | (t, Raise ex) => (Readline pid output :: Poll pid None :: t, Raise ex)
        | (t, Looping) => (Readline pid output :: Poll pid None :: t, Looping)
        end
    end.
Proof.
  cbn [read_loop_from bind emit ret app].
  destruct status as [code | ]; [reflexivity | ].
  destruct (print_output (w (OutputLine pid turn)) output)
    as [t [[] | ex | ]];
    cbn [bind app]; try reflexivity.
  destruct (read_loop_from w pid (S turn) rest) as [t' r']. reflexivity.
Qed.

(** What a [print] does: one call, and it returns or raises as the outside
    world has it. *)
Lemma print_eq (fate : option print_error) (text : str) :
  print fate text =
    ([Print text],
     match fate with
     | None => Ok tt
     | Some err => Raise (print_exn err)
     end).
Proof. destruct fate; reflexivity. Qed.

Lemma print_output_cases (fate : option print_error) (output : bytes) :
  print_output fate output = ([], Ok tt)
  \/ (exists text, print_output fate output = ([Print text], Ok tt))
  \/ (exists text ex, print_output fate output = ([Print text], Raise ex))
  \/ print_output fate output = ([], Raise UnicodeDecodeError).
Proof.
  unfold print_output. destruct output as [ | b rest]; [left; reflexivity | ].
  destruct (decode (b :: rest)) as [text | ].
  - rewrite print_eq. destruct fate as [err | ].
    + right; right; left. do 2 eexists; reflexivity.
    + right; left. eexists; reflexivity.
  - right; right; right; reflexivity.
Qed.

(** A read loop only reads and polls its own subprocess, and prints. *)
Lemma read_loop_events (w : print_site -> option print_error)
    (pid turn : nat) (obs : list observation) (ev : event) :
  In ev (trace (read_loop_from w pid turn obs)) ->
  event_pid ev = Some pid /\ (forall c, ev <> Popen pid c)
  \/ (exists text, ev = Print text).
Proof.
  revert turn.
  induction obs as [ | [output status] rest IH]; intros turn; [intros [] | ].
  rewrite read_loop_from_cons.
  assert (Hhead : forall l,
    (In ev l -> event_pid ev = Some pid /\ (forall c, ev <> Popen pid c)
                \/ (exists text, ev = Print text)) ->
    In ev (Readline pid output :: Poll pid status :: l) ->
    event_pid ev = Some pid /\ (forall c, ev <> Popen pid c)
    \/ (exists text, ev = Print text)).
  { intros l Hl [<- | [<- | Hin]]; [ | | auto];
      left; split; [reflexivity | discriminate | reflexivity | discriminate]. }
  destruct status as [code | ].
  - cbn [trace fst]. apply Hhead. intros [].
  - destruct (print_output_cases (w (OutputLine pid turn)) output)
      as [-> | [[text ->] | [(text & ex & ->) | ->]]];
      cbn [trace fst app]; apply Hhead.
    + apply IH.
    + intros [<- | Hin]; [right; eexists; reflexivity | exact (IH _ Hin)].
    + intros [<- | []]. right; eexists; reflexivity.
    + intros [].
Qed.

Lemma read_loop_no_popen (w : print_site -> option print_error)
    (pid turn pid' : nat) (obs : list observation) (c : popen_call) :
  ~ In (Popen pid' c) (trace (read_loop_from w pid turn obs)).
Proof.
  intros Hin. apply read_loop_events in Hin.
  destruct Hin as [[Hpid Hne] | [text Heq]]; [ | discriminate].
  cbn in Hpid. injection Hpid as ->. exact (Hne c eq_refl).
Qed.

(** The trace of a phase is the trace of its read loop, or empty. *)
Lemma phase_trace (e : env) (pid : nat) (obs : list observation) :
  trace (phase e pid obs) = trace (read_loop_from (print_fate e) pid 0 obs)
  \/ (trace (phase e pid obs) = []
      /\ exists err,
           print_fate e (CommandLine pid) = Some err
           /\ outcome (phase e pid obs) = Raise (print_exn err)).
Proof.
  unfold phase, after_print.
  destruct (print_fate e (CommandLine pid)) as [err | ].
  - right. split; [reflexivity | ]. exists err. auto.
  - left. reflexivity.
Qed.

(** A phase whose [print] succeeds is its read loop. *)
Lemma phase_printed (e : env) (pid : nat) (obs : list observation) :
  print_fate e (CommandLine pid) = None ->
  phase e pid obs = read_loop_from (print_fate e) pid 0 obs.
Proof. unfold phase, after_print. intros ->. reflexivity. Qed.

(** A phase that does not raise had its [print] succeed. *)
Lemma phase_not_raised (e : env) (pid : nat) (obs : list observation) :
  (forall ex, outcome (phase e pid obs) <> Raise ex) ->
  phase e pid obs = read_loop_from (print_fate e) pid 0 obs.
Proof.
  unfold phase, after_print.
  destruct (print_fate e (CommandLine pid)) as [err | ]; [ | reflexivity].
  intros H. destruct (H (print_exn err)). reflexivity.
Qed.


Lemma phase_no_popen (e : env) (pid pid' : nat) (obs : list observation)
    (c : popen_call) :
  ~ In (Popen pid' c) (trace (phase e pid obs)).
Proof.
  destruct (phase_trace e pid obs) as [-> | [-> _]]; [ | intros []].
  apply read_loop_no_popen.
Qed.

(** The [Popen] events of a run: the first call as subprocess 0 and the
    second as subprocess 1, whatever the subprocesses do. *)
Lemma main_popen (e : env) (quiet : str) (pid : nat) (c : popen_call) :
  In (Popen pid c) (trace (main e quiet)) ->
  (pid = 0 /\ c = first_call quiet) \/ (pid = 1 /\ c = second_call e quiet).
Proof.
  rewrite main_unfold.
  destruct (first_process e) as [obs1 | ]; [ | intros []].
  pose proof (phase_no_popen e 0 pid obs1 c) as Hno1.
  destruct (phase e 0 obs1) as [t1 r1]. cbn [trace fst] in Hno1.
  assert (Hhead : In (Popen pid c)
            ([Popen 0 (first_call quiet);
              Print (join (py " ") (first_cmd quiet))] ++ t1) ->
          pid = 0 /\ c = first_call quiet).
  { intros [Heq | [Heq | Hin]]; [ | discriminate | contradiction].
    injection Heq as <- <-. split; reflexivity. }
  destruct r1 as [[] | ex | ]; cbn zeta; cbn [trace fst]; [ | auto | auto].
  destruct (second_process e) as [obs2 | ]; cbn [trace fst]; [ | auto].
  rewrite app_assoc. intros Hin. apply in_app_or in Hin.
  destruct Hin as [Hin | Hin]; [auto | right].
  destruct Hin as [Heq | [Heq | Hin]].
  - injection Heq as <- <-. split; reflexivity.
  - discriminate.
  - exfalso. exact (phase_no_popen e 1 pid obs2 c Hin).
Qed.

Lemma started_app (t1 t2 : list event) :
  started (t1 ++ t2) = started t1 ++ started t2.
Proof. unfold started. apply flat_map_app. Qed.

Lemma console_app (t1 t2 : list event) :
  console (t1 ++ t2) = console t1 ++ console t2.
Proof. unfold console. apply flat_map_app. Qed.

Lemma read_loop_starts_nothing (w : print_site -> option print_error)
    (pid turn : nat) (obs : list observation) :
  started (trace (read_loop_from w pid turn obs)) = [].
Proof.
  revert turn.
  induction obs as [ | [output status] rest IH]; intros turn; [reflexivity | ].
  rewrite read_loop_from_cons. destruct status as [code | ]; [reflexivity | ].
  destruct (print_output_cases (w (OutputLine pid turn)) output)
    as [-> | [[text ->] | [(text & ex & ->) | ->]]];
    cbn [trace fst app started flat_map]; try reflexivity; apply IH.
Qed.

Lemma phase_starts_nothing (e : env) (pid : nat) (obs : list observation) :
  started (trace (phase e pid obs)) = [].
Proof.
  destruct (phase_trace e pid obs) as [-> | [-> _]]; [ | reflexivity].
  apply read_loop_starts_nothing.
Qed.

(** A run that returns has started the two subprocesses. *)
Lemma main_started (e : env) (quiet : str) :
  outcome (main e quiet) = Ok tt ->
  started (trace (main e quiet))
  = [(0, first_call quiet); (1, second_call e quiet)].
Proof.
  rewrite main_unfold.
  destruct (first_process e) as [obs1 | ]; [ | discriminate].
  pose proof (phase_starts_nothing e 0 obs1) as H1.
  destruct (phase e 0 obs1) as [t1 [[] | ex | ]];
    cbn zeta; cbn [trace outcome fst snd] in *; try discriminate.
  destruct (second_process e) as [obs2 | ]; [ | discriminate].
  cbn [trace outcome fst snd]. intros _.
  rewrite !started_app, H1, phase_starts_nothing. reflexivity.
Qed.

(** ** The commands that are run *)

(** C4: the first installer invocation installs one external package: its
    command is ["pip", "--no-cache-dir", "install", "pyspark>=3.0.1"],
    followed by the quiet argument when there is one, and nothing else. *)
Theorem first_invocation_installs_pyspark_only (e : env) (quiet : str)
    (obs : list observation) :
  first_process e = Some obs ->
  exists rest,
    trace (main e quiet) =
      Popen 0 {| args := ArgList
                   ([py "pip"; py "--no-cache-dir"; py "install";
                     py "pyspark>=3.0.1"]
                    ++ (if truthy quiet then [quiet] else []));
                 stdout := PIPE; stderr := STDOUT; shell := false |}
        :: rest.
Proof.
  intros Hfirst. rewrite main_unfold, Hfirst.
  unfold first_call. rewrite first_cmd_eq.
  destruct (phase e 0 obs) as [t1 [[] | ex | ]]; cbn zeta.
  - destruct (second_process e) as [obs2 | ];
      cbn [app trace fst]; eexists; reflexivity.
  - cbn [app trace fst]; eexists; reflexivity.
  - cbn [app trace fst]; eexists; reflexivity.
Qed.

Lemma first_invocation_installs_pyspark_only_witness :
  exists rest,
    trace (main sample_env (py "-q")) =
      Popen 0 {| args := ArgList
                   ([py "pip"; py "--no-cache-dir"; py "install";
                     py "pyspark>=3.0.1"]
                    ++ (if truthy (py "-q") then [py "-q"] else []));
                 stdout := PIPE; stderr := STDOUT; shell := false |}
        :: rest.
Proof.
  apply (first_invocation_installs_pyspark_only sample_env (py "-q")
           [(collecting_line, None); ([], Some 0%Z)]).
  reflexivity.
Defined.

(** C5: the second command is one shell string made of two pip install
    invocations joined by "&&": first "pip install --no-deps" followed by
    the whole install target list, then "pip install" followed by the same
    list, the targets one space apart (each invocation closed by the quiet
    argument when there is one).  Apart from what quiet itself holds,
    "--no-deps" occurs once in the text of the first invocation and not in
    the text of the second, and "&&" occurs in neither. *)
Theorem combined_command_structure (e : env) (quiet : str) (c : popen_call) :
  In (Popen 1 c) (trace (main e quiet)) ->
  let targets :=
    install_targets (version e) (os_name e)
    ++ (if truthy quiet then [quiet] else []) in
  let arguments := join (py " ") targets in
  let first_invocation := py "pip install --no-deps " ++ arguments in
  let second_invocation := py "pip install " ++ arguments in
  c = {| args := ArgString
                   (first_invocation ++ py " && " ++ second_invocation);
         stdout := PIPE; stderr := STDOUT; shell := true |}
  /\ arguments ++ py " " = List.concat (map (fun t => t ++ py " ") targets)
  /\ occurrences (py "--no-deps") first_invocation
     = 1 + occurrences (py "--no-deps") quiet
  /\ occurrences (py "--no-deps") second_invocation
     = occurrences (py "--no-deps") quiet
  /\ occurrences (py "&&") first_invocation = occurrences (py "&&") quiet
  /\ occurrences (py "&&") second_invocation = occurrences (py "&&") quiet.
Proof.
  intros Hin targets arguments first_invocation second_invocation.
  subst first_invocation second_invocation arguments targets.
  apply main_popen in Hin.
  destruct Hin as [[Hpid _] | [_ ->]]; [discriminate | ].
  split.
  { unfold second_call. rewrite combined_cmd_text.
    rewrite <- !app_assoc. reflexivity. }
  split; [apply join_concat, install_targets_not_empty | ].
  destruct (targets_text_clean (version e) (os_name e)) as [Hamp Hdeps].
  assert (Hocc : forall pat prefix,
    pat <> [] -> ~ In 32%N pat ->
    occurrences pat
      ((prefix ++ [32%N])
       ++ join (py " ")
            (install_targets (version e) (os_name e)
             ++ (if truthy quiet then [quiet] else [])))
    = occurrences pat prefix
      + (occurrences pat
           (join (py " ") (install_targets (version e) (os_name e)))
         + occurrences pat quiet)).
  { intros pat prefix Hne Hsep. rewrite <- app_assoc.
    change ([32%N] ++ ?x) with (32%N :: x).
    rewrite occurrences_app_sep by assumption.
    rewrite occurrences_arguments by assumption. reflexivity. }
  assert (Hdeps_pat : py "--no-deps" <> [] /\ ~ In 32%N (py "--no-deps")).
  { split; [discriminate | ]. apply mem_false_N. reflexivity. }
  assert (Hamp_pat : py "&&" <> [] /\ ~ In 32%N (py "&&")).
  { split; [discriminate | ]. apply mem_false_N. reflexivity. }
  change (py "pip install --no-deps ")
    with (py "pip install --no-deps" ++ [32%N]).
  change (py "pip install ") with (py "pip install" ++ [32%N]).
  rewrite !Hocc by (apply Hdeps_pat || apply Hamp_pat).
  rewrite Hamp, Hdeps. repeat split; reflexivity.
Qed.

Lemma combined_command_structure_witness :
  let targets :=
    install_targets python_3_9_0 (py "posix")
    ++ (if truthy (py "-q") then [py "-q"] else []) in
  let arguments := join (py " ") targets in
  let first_invocation := py "pip install --no-deps " ++ arguments in
  let second_invocation := py "pip install " ++ arguments in
  second_call sample_env (py "-q")
  = {| args := ArgString
                 (first_invocation ++ py " && " ++ second_invocation);
       stdout := PIPE; stderr := STDOUT; shell := true |}
  /\ arguments ++ py " " = List.concat (map (fun t => t ++ py " ") targets)
  /\ occurrences (py "--no-deps") first_invocation
     = 1 + occurrences (py "--no-deps") (py "-q")
  /\ occurrences (py "--no-deps") second_invocation
     = occurrences (py "--no-deps") (py "-q")
  /\ occurrences (py "&&") first_invocation
     = occurrences (py "&&") (py "-q")
  /\ occurrences (py "&&") second_invocation
     = occurrences (py "&&") (py "-q").
Proof.
  apply (combined_command_structure sample_env (py "-q")
           (second_call sample_env (py "-q"))).
  vm_compute. do 7 right. left. reflexivity.
Defined.

(** C6: quiet is the one optional positional argument of the script, the
    empty string when it is absent.  The script starts the first pip
    command with a non-empty quiet appended as it is, and the combined
    command with it appended, after a space, to the targets of each of the
    two pip invocations; an empty quiet is appended nowhere.  A run that
    can start the first subprocess starts it so, no run starts anything
    else, and a run that returns has started both commands. *)
Theorem quiet_argument_passthrough (e : env) (argv : list str) :
  let quiet :=
    match argv with
    | _ :: arg :: _ => arg
    | _ => []
    end in
  let targets := join (py " ") (install_targets (version e) (os_name e)) in
  let first :=
    {| args := ArgList
                 ([py "pip"; py "--no-cache-dir"; py "install";
                   py "pyspark>=3.0.1"]
                  ++ match quiet with
                     | [] => []
                     | _ :: _ => [quiet]
                     end);
       stdout := PIPE; stderr := STDOUT; shell := false |} in
  let arguments :=
    targets ++ match quiet with
               | [] => []
               | _ :: _ => py " " ++ quiet
               end in
  let second :=
    {| args := ArgString
                 (py "pip install --no-deps " ++ arguments
                  ++ py " && pip install " ++ arguments);
       stdout := PIPE; stderr := STDOUT; shell := true |} in
  (forall obs1,
      first_process e = Some obs1 ->
      exists rest, trace (script e argv) = Popen 0 first :: rest)
  /\ (forall pid c,
        In (Popen pid c) (trace (script e argv)) ->
        (pid = 0 /\ c = first) \/ (pid = 1 /\ c = second))
  /\ (outcome (script e argv) = Ok tt ->
      started (trace (script e argv)) = [(0, first); (1, second)]).
Proof.
  intros quiet targets first arguments second.
  assert (Hscript : script e argv = main e quiet).
  { unfold script. subst quiet.
    destruct argv as [ | prog [ | arg more]]; reflexivity. }
  assert (Hfirst : first_call quiet = first).
  { unfold first_call. rewrite first_cmd_eq. subst first.
    destruct quiet; reflexivity. }
  assert (Hsecond : second_call e quiet = second).
  { unfold second_call. rewrite combined_cmd_text. subst second arguments.
    destruct quiet as [ | ch tail]; cbn [truthy].
    - rewrite !app_nil_r. reflexivity.
    - rewrite join_app;
        [ | exact (fun H => install_targets_not_empty (version e) (os_name e)
                              [] (eq_trans (app_nil_r _) H))
          | discriminate].
      reflexivity. }
  rewrite Hscript, <- Hfirst, <- Hsecond.
  split; [ | split; [apply main_popen | apply main_started]].
  intros obs1 H1. rewrite main_unfold, H1.
  destruct (phase e 0 obs1) as [t1 [[] | ex | ]]; cbn zeta.
  - destruct (second_process e) as [obs2 | ];
      cbn [app trace fst]; eexists; reflexivity.
  - cbn [app trace fst]; eexists; reflexivity.
  - cbn [app trace fst]; eexists; reflexivity.
Qed.

Lemma quiet_argument_passthrough_witness :
  let quiet := py "-q" in
  let targets := join (py " ") (install_targets python_3_9_0 (py "posix")) in
  let first :=
    {| args := ArgList
                 [py "pip"; py "--no-cache-dir"; py "install";
                  py "pyspark>=3.0.1"; quiet];
       stdout := PIPE; stderr := STDOUT; shell := false |} in
  let arguments := targets ++ py " " ++ quiet in
  let second :=
    {| args := ArgString
                 (py "pip install --no-deps " ++ arguments
                  ++ py " && pip install " ++ arguments);
       stdout := PIPE; stderr := STDOUT; shell := true |} in
  (exists rest,
      trace (script sample_env [py "install_dev_python_modules.py"; quiet])
      = Popen 0 first :: rest)
  /\ started
       (trace (script sample_env [py "install_dev_python_modules.py"; quiet]))
     = [(0, first); (1, second)].
Proof.
  destruct (quiet_argument_passthrough sample_env
              [py "install_dev_python_modules.py"; py "-q"])
    as (Hfirst & _ & Hboth).
  split.
  - apply (Hfirst [(collecting_line, None); ([], Some 0%Z)]). reflexivity.
  - apply Hboth. reflexivity.
Defined.

(** C10: command construction is deterministic.  Two runs with the same
    interpreter version, the same operating-system name and the same quiet
    argument start the same commands, whatever else differs between them:
    the n-th [Popen] call of one run equals the n-th of the other. *)
Theorem command_construction_deterministic (e1 e2 : env) (quiet : str)
    (pid : nat) (c1 c2 : popen_call) :
  version e1 = version e2 ->
  os_name e1 = os_name e2 ->
  In (Popen pid c1) (trace (main e1 quiet)) ->
  In (Popen pid c2) (trace (main e2 quiet)) ->
  c1 = c2.
Proof.
  intros Hv Hos H1 H2.
  apply main_popen in H1. apply main_popen in H2.
  destruct H1 as [[-> ->] | [-> ->]], H2 as [[E ->] | [E ->]];
    try discriminate.
  - reflexivity.
  - unfold second_call. rewrite Hv, Hos. reflexivity.
Qed.

Lemma command_construction_deterministic_witness :
  second_call sample_env (py "-q") = second_call sample_env_silent (py "-q").
Proof.
  apply (command_construction_deterministic sample_env sample_env_silent
           (py "-q") 1).
  - reflexivity.
  - reflexivity.
  - vm_compute. do 7 right. left. reflexivity.
  - vm_compute. do 4 right. left. reflexivity.
Defined.

(** ** Order of events *)








(** ** What is printed, and how a run ends *)

Lemma print_output_spec (fate : option print_error) (output : bytes) :
  (output = [] /\ print_output fate output = ([], Ok tt))
  \/ (exists text,
        output <> []
        /\ decode output = Some text
        /\ print_output fate output
           = ([Print (strip text)],
              match fate with
              | None => Ok tt
              | Some err => Raise (print_exn err)
              end))
  \/ (decode output = None
      /\ print_output fate output = ([], Raise UnicodeDecodeError)).
Proof.
  unfold print_output. destruct output as [ | b rest]; [left; auto | ].
  destruct (decode (b :: rest)) as [text | ].
  - right; left; exists text. rewrite print_eq.
    split; [discriminate | auto].
  - right; right; auto.
Qed.

(** Within a read loop, each non-empty output read while the subprocess
    runs is decoded, stripped and printed at once; if it cannot be decoded
    the loop raises and does nothing more. *)
Lemma read_loop_turn (w : print_site -> option print_error)
    (pid turn pid' : nat) (obs : list observation)
    (pre post : list event) (output : bytes) :
  trace (read_loop_from w pid turn obs)
    = pre ++ Readline pid' output :: Poll pid' None :: post ->
  output = []
  \/ (exists text post',
        decode output = Some text /\ post = Print (strip text) :: post')
  \/ (decode output = None /\ post = []
      /\ outcome (read_loop_from w pid turn obs) = Raise UnicodeDecodeError).
Proof.
  revert turn pre.
  induction obs as [ | [output1 status] rest IH]; intros turn pre;
    [destruct pre; discriminate | ].
  rewrite read_loop_from_cons. destruct status as [code | ].
  - cbn [trace fst]. destruct pre as [ | p0 [ | p1 [ | p2 pre]]]; discriminate.
  - destruct (print_output_spec (w (OutputLine pid turn)) output1)
      as [[Hempty ->] | [(text & Hne & Hdec & ->) | [Hdec ->]]].
    + cbn [trace outcome fst snd app].
      destruct pre as [ | p0 [ | p1 pre]]; cbn [app]; intros H;
        try discriminate.
      * inversion H; subst. left; reflexivity.
      * inversion H as [[Hp0 Hp1 Hrest]]. exact (IH _ pre Hrest).
    + destruct (w (OutputLine pid turn)) as [err | ];
        cbn [trace outcome fst snd app];
        destruct pre as [ | p0 [ | p1 pre]]; cbn [app]; intros H;
        try discriminate.
      * inversion H; subst. right; left. exists text; eexists; auto.
      * inversion H as [[Hp0 Hp1 Hrest]].
        destruct pre as [ | p2 [ | p3 pre]]; discriminate.
      * inversion H; subst. right; left. exists text; eexists; auto.
      * inversion H as [[Hp0 Hp1 Hrest]].
        destruct pre as [ | p2 pre]; [discriminate | ].
        inversion Hrest as [[Hp2 Hrest']]. exact (IH _ pre Hrest').
    + cbn [trace outcome fst snd app].
      destruct pre as [ | p0 [ | p1 pre]]; cbn [app]; intros H;
        try discriminate.
      * inversion H; subst. right; right. auto.
      * inversion H as [[Hp0 Hp1 Hrest]]. destruct pre; discriminate.
Qed.

Lemma phase_turn (e : env) (pid pid' : nat) (obs : list observation)
    (pre post : list event) (output : bytes) :
  trace (phase e pid obs)
    = pre ++ Readline pid' output :: Poll pid' None :: post ->
  output = []
  \/ (exists text post',
        decode output = Some text /\ post = Print (strip text) :: post')
  \/ (decode output = None /\ post = []
      /\ outcome (phase e pid obs) = Raise UnicodeDecodeError).
Proof.
  unfold phase, after_print.
  destruct (print_fate e (CommandLine pid)) as [err | ].
  - cbn [trace fst]. intros H. destruct pre; discriminate.
  - apply read_loop_turn.
Qed.

(** Where a pair of neighbours sits in a concatenation. *)
Lemma app_window {A} (l1 l2 pre post : list A) (a b : A) :
  l1 ++ l2 = pre ++ a :: b :: post ->
  (exists post1, l1 = pre ++ a :: b :: post1 /\ post = post1 ++ l2)
  \/ (l1 = pre ++ [a] /\ l2 = b :: post)
  \/ (exists pre2, pre = l1 ++ pre2 /\ l2 = pre2 ++ a :: b :: post).
Proof.
  revert pre. induction l1 as [ | x l1 IH]; intros pre H.
  - right; right. exists pre. auto.
  - destruct pre as [ | p pre]; cbn [app] in H.
    + injection H as -> H. destruct l1 as [ | y l1]; cbn [app] in H.
      * right; left. auto.
      * injection H as -> H. left. exists l1. auto.
    + injection H as -> H. apply IH in H.
      destruct H as [(post1 & -> & ->) | [(-> & ->) | (pre2 & -> & ->)]].
      * left. eexists. split; reflexivity.
      * right; left. split; reflexivity.
      * right; right. eexists. split; reflexivity.
Qed.

(** The same for a whole run. *)
Lemma main_turn (e : env) (quiet : str) (pid : nat) (pre post : list event)
    (output : bytes) :
  trace (main e quiet) = pre ++ Readline pid output :: Poll pid None :: post ->
  output = []
  \/ (exists text post',
        decode output = Some text /\ post = Print (strip text) :: post')
  \/ (decode output = None /\ post = []
      /\ outcome (main e quiet) = Raise UnicodeDecodeError).
Proof.
  rewrite main_unfold.
  destruct (first_process e) as [obs1 | ];
    [ | intros H; destruct pre; discriminate].
  pose proof (fun pre post => phase_turn e 0 pid obs1 pre post output)
    as Hturn1.
  destruct (phase e 0 obs1) as [t1 r1].
  cbn [trace outcome fst snd] in Hturn1.
  assert (Hshort : forall r : result unit,
    trace ([Popen 0 (first_call quiet);
            Print (join (py " ") (first_cmd quiet))] ++ t1, r)
      = pre ++ Readline pid output :: Poll pid None :: post ->
    output = []
    \/ (exists text post',
          decode output = Some text /\ post = Print (strip text) :: post')
    \/ (decode output = None /\ post = []
        /\ r1 = Raise UnicodeDecodeError)).
  { intros r H. cbn [trace fst app] in H.
    destruct pre as [ | p0 [ | p1 pre]]; try discriminate.
    inversion H as [[Hp0 Hp1 Hrest]]. exact (Hturn1 pre post Hrest). }
  destruct r1 as [[] | ex | ]; cbn zeta.
  2, 3: intros H; apply Hshort in H;
    destruct H as [H | [H | (Hdec & Hpost & Hr)]]; auto.
  destruct (second_process e) as [obs2 | ].
  2: { intros H; apply Hshort in H.
       destruct H as [H | [H | (Hdec & Hpost & Hr)]]; auto; discriminate. }
  cbn [trace outcome fst snd app]. intros H.
  destruct pre as [ | p0 [ | p1 pre]]; try discriminate.
  inversion H as [[Hp0 Hp1 Hrest]]. clear H. rename Hrest into H.
  apply app_window in H.
  destruct H as [(post1 & H & ->) | [[_ H] | (pre2 & _ & H)]].
  - apply Hturn1 in H.
    destruct H as [H | [(text & post' & Hdec & ->) | (_ & _ & Hr)]];
      [auto | | discriminate].
    right; left. exists text; eexists; split; [exact Hdec | reflexivity].
  - discriminate.
  - destruct pre2 as [ | q0 [ | q1 pre2]]; try discriminate.
    inversion H as [[Hq0 Hq1 Hrest]].
    exact (phase_turn e 1 pid obs2 pre2 post output Hrest).
Qed.

Lemma prints_succeed_cons (w : print_site -> option print_error)
    (pid turn : nat) (output : bytes) (outputs : list bytes) :
  prints_succeed w pid turn (output :: outputs)
  <-> (output <> [] -> w (OutputLine pid turn) = None)
      /\ prints_succeed w pid (S turn) outputs.
Proof.
  unfold prints_succeed. split.
  - intros H. split.
    + intros Hne. rewrite <- (Nat.add_0_r turn).
      exact (H 0 output eq_refl Hne).
    + intros k o Hk Hne. rewrite Nat.add_succ_comm.
      exact (H (S k) o Hk Hne).
  - intros [H0 Hrest] [ | k] o Hk Hne; cbn [nth_error] in Hk.
    + injection Hk as <-. rewrite Nat.add_0_r. exact (H0 Hne).
    + rewrite <- Nat.add_succ_comm. exact (Hrest k o Hk Hne).
Qed.

Lemma completes_cons (output : bytes) (rest : list observation) :
  completes ((output, None) :: rest) <-> completes rest.
Proof.
  unfold completes. split.
  - intros (o & code & [Heq | Hin]); [discriminate | ].
    exists o, code. exact Hin.
  - intros (o & code & Hin). exists o, code. right. exact Hin.
Qed.

(** A read loop comes to its end exactly when its subprocess is seen to
    end, everything read before that can be decoded, and each [print] of
    it succeeds. *)
Lemma read_loop_returns_iff (w : print_site -> option print_error)
    (pid turn : nat) (obs : list observation) :
  outcome (read_loop_from w pid turn obs) = Ok tt
  <-> completes obs
      /\ Forall decodable (running_outputs obs)
      /\ prints_succeed w pid turn (running_outputs obs).
Proof.
  revert turn.
  induction obs as [ | [output status] rest IH]; intros turn.
  - split; [discriminate | intros [(o & code & []) _]].
  - rewrite read_loop_from_cons. destruct status as [code | ].
    + split; [ | reflexivity]. intros _.
      split; [exists output, code; left; reflexivity | ].
      split; [constructor | ].
      intros k o Hk. destruct k; discriminate.
    + cbn [running_outputs].
      rewrite completes_cons, Forall_cons_iff, prints_succeed_cons.
      destruct (print_output_spec (w (OutputLine pid turn)) output)
        as [[Hempty ->] | [(text & Hne & Hdec & ->) | [Hdec ->]]].
      * cbn [outcome snd]. rewrite IH. subst output.
        split.
        -- intros (Hc & Hd & Hp).
           repeat split; try assumption; [discriminate | congruence].
        -- intros (Hc & [_ Hd] & [_ Hp]). auto.
      * destruct (w (OutputLine pid turn)) as [err | ]; cbn [outcome snd].
        -- split; [discriminate | ].
           intros (_ & _ & [H0 _]). specialize (H0 Hne). discriminate.
        -- rewrite IH. split.
           ++ intros (Hc & Hd & Hp).
              repeat split; try assumption.
              unfold decodable. rewrite Hdec. discriminate.
           ++ intros (Hc & [_ Hd] & [_ Hp]). auto.
      * cbn [outcome snd]. split; [discriminate | ].
        intros (_ & [Hd _] & _). destruct (Hd Hdec).
Qed.

Lemma phase_returns_iff (e : env) (pid : nat) (obs : list observation) :
  outcome (phase e pid obs) = Ok tt
  <-> print_fate e (CommandLine pid) = None
      /\ completes obs
      /\ Forall decodable (running_outputs obs)
      /\ prints_succeed (print_fate e) pid 0 (running_outputs obs).
Proof.
  unfold phase, after_print.
  destruct (print_fate e (CommandLine pid)) as [err | ].
  - split; [discriminate | intros [H _]; discriminate].
  - rewrite read_loop_returns_iff. split; [auto | intros [_ H]; exact H].
Qed.

(** Exit codes only pass through a read loop. *)
Lemma read_loop_recode (f : Z -> Z) (w : print_site -> option print_error)
    (pid turn : nat) (obs : list observation) :
  read_loop_from w pid turn (map (recode_observation f) obs) =
    (map (recode_event f) (trace (read_loop_from w pid turn obs)),
     outcome (read_loop_from w pid turn obs)).
Proof.
  revert turn.
  induction obs as [ | [output status] rest IH]; intros turn; [reflexivity | ].
  cbn [map]. unfold recode_observation at 1. cbn [fst snd].
  rewrite !read_loop_from_cons.
  destruct status as [code | ]; [reflexivity | ].
  cbn [option_map]. rewrite IH.
  destruct (print_output_cases (w (OutputLine pid turn)) output)
    as [-> | [[text ->] | [(text & ex & ->) | ->]]];
    reflexivity.
Qed.

Lemma phase_recode (f : Z -> Z) (e : env) (pid : nat)
    (obs : list observation) :
  phase (recode f e) pid (map (recode_observation f) obs) =
    (map (recode_event f) (trace (phase e pid obs)),
     outcome (phase e pid obs)).
Proof.
  unfold phase, after_print. cbn [recode print_fate].
  destruct (print_fate e (CommandLine pid)) as [err | ]; [reflexivity | ].
  apply read_loop_recode.
Qed.

Lemma main_recode (f : Z -> Z) (e : env) (quiet : str) :
  main (recode f e) quiet =
    (map (recode_event f) (trace (main e quiet)), outcome (main e quiet)).
Proof.
  rewrite !main_unfold. unfold second_call.
  change (version (recode f e)) with (version e).
  change (os_name (recode f e)) with (os_name e).
  change (first_process (recode f e))
    with (option_map (map (recode_observation f)) (first_process e)).
  change (second_process (recode f e))
    with (option_map (map (recode_observation f)) (second_process e)).
  destruct (first_process e) as [obs1 | ]; [ | reflexivity].
  cbn [option_map]. rewrite phase_recode.
  destruct (phase e 0 obs1) as [t1 [[] | ex | ]];
    cbn [trace outcome fst snd]; try reflexivity.
  destruct (second_process e) as [obs2 | ]; cbn [option_map].
  - rewrite phase_recode. cbn [trace outcome fst snd app map].
    rewrite map_app. reflexivity.
  - reflexivity.
Qed.

(** ** Failures of the subprocesses *)

(** C7, as the code has it: [main] never looks at the value of an exit code
    and handles no error.  In every run, other exit codes change nothing
    but the codes in what it does; each subprocess is started with its
    stdout piped and its stderr sent to that pipe; each non-empty output
    read while a subprocess runs is decoded and the [print] of it, with the
    white space at both ends stripped, is the next thing done, unless the
    output is not UTF-8, which raises [UnicodeDecodeError] on the spot.
    When both subprocesses can be started and are seen to end, every
    output read while they run is valid UTF-8 and every [print] succeeds,
    [main] returns normally, whatever the exit codes are. *)
Theorem main_ignores_exit_codes (e : env) (quiet : str) :
  (forall f : Z -> Z,
      main (recode f e) quiet
      = (map (recode_event f) (trace (main e quiet)), outcome (main e quiet)))
  /\ (forall pid c,
        In (Popen pid c) (trace (main e quiet)) ->
        stdout c = PIPE /\ stderr c = STDOUT)
  /\ (forall pid pre output post,
        trace (main e quiet)
          = pre ++ Readline pid output :: Poll pid None :: post ->
        output <> [] ->
        (exists text post',
            decode output = Some text /\ post = Print (strip text) :: post')
        \/ (decode output = None /\ post = []
            /\ outcome (main e quiet) = Raise UnicodeDecodeError))
  /\ (forall obs1 obs2,
        first_process e = Some obs1 ->
        second_process e = Some obs2 ->
        completes obs1 ->
        completes obs2 ->
        Forall decodable (running_outputs obs1) ->
        Forall decodable (running_outputs obs2) ->
        (forall site, print_fate e site = None) ->
        outcome (main e quiet) = Ok tt).
Proof.
  split; [intros f; apply main_recode | ].
  split.
  { intros pid c Hin. apply main_popen in Hin.
    destruct Hin as [[_ ->] | [_ ->]]; split; reflexivity. }
  split.
  { intros pid pre output post Htrace Hne.
    apply main_turn in Htrace.
    destruct Htrace as [Hempty | [Hprinted | Hraise]];
      [contradiction | left; exact Hprinted | right; exact Hraise]. }
  intros obs1 obs2 H1 H2 Hend1 Hend2 Hdec1 Hdec2 Hprint.
  assert (Hphase : forall pid obs,
            completes obs -> Forall decodable (running_outputs obs) ->
            outcome (phase e pid obs) = Ok tt).
  { intros pid obs Hend Hdec. apply phase_returns_iff.
    repeat split; try assumption; [apply Hprint | ].
    intros k o _ _. apply Hprint. }
  rewrite main_unfold, H1.
  pose proof (Hphase 0 obs1 Hend1 Hdec1) as Hr1.
  destruct (phase e 0 obs1) as [t1 r1]. cbn [outcome snd] in Hr1.
  subst r1. cbn zeta. rewrite H2. cbn [outcome snd].
  exact (Hphase 1 obs2 Hend2 Hdec2).
Qed.

Lemma main_ignores_exit_codes_witness :
  (forall f : Z -> Z,
      main (recode f env_padded) []
      = (map (recode_event f) (trace (main env_padded [])),
         outcome (main env_padded [])))
  /\ (forall pid c,
        In (Popen pid c) (trace (main env_padded [])) ->
        stdout c = PIPE /\ stderr c = STDOUT)
  /\ (forall pid pre output post,
        trace (main env_padded [])
          = pre ++ Readline pid output :: Poll pid None :: post ->
        output <> [] ->
        (exists text post',
            decode output = Some text /\ post = Print (strip text) :: post')
        \/ (decode output = None /\ post = []
            /\ outcome (main env_padded []) = Raise UnicodeDecodeError))
  /\ outcome (main env_padded []) = Ok tt.
Proof.
  destruct (main_ignores_exit_codes env_padded []) as (H1 & H2 & H3 & H4).
  split; [exact H1 | ]. split; [exact H2 | ]. split; [exact H3 | ].
  apply (H4 [(padded_line, None); ([], Some 0%Z)] [([], Some 2%Z)]).
  - reflexivity.
  - reflexivity.
  - exists [], 0%Z. right; left; reflexivity.
  - exists [], 2%Z. left; reflexivity.
  - repeat constructor. vm_compute. discriminate.
  - constructor.
  - reflexivity.
Defined.

(** C7 as it is worded does not hold: a line is not printed as it is but
    stripped of the white space at its ends; a line that is not UTF-8 makes
    [main] raise [UnicodeDecodeError]; a [pip] that cannot be started makes
    it raise [OSError]; and a [print] that fails makes it raise
    [UnicodeEncodeError] or [OSError], although both subprocesses run to
    their end. *)
Lemma main_strips_output_and_can_raise :
  (decode padded_line = Some (py "  ok " ++ [10%N])
   /\ trace (read_loop_from (fun _ => None) 0 0
               [(padded_line, None); ([], Some 0%Z)])
      = [Readline 0 padded_line; Poll 0 None; Print (py "ok");
         Readline 0 []; Poll 0 (Some 0%Z)]
   /\ In (Print (py "ok")) (trace (main env_padded []))
   /\ ~ In (Print (py "  ok " ++ [10%N])) (trace (main env_padded []))
   /\ ~ In (Print (py "  ok ")) (trace (main env_padded [])))
  /\ outcome (main env_not_utf8 []) = Raise UnicodeDecodeError
  /\ outcome (main env_no_pip []) = Raise OSError
  /\ outcome (main env_ascii_console []) = Raise UnicodeEncodeError
  /\ outcome (main env_console_full []) = Raise OSError.
Proof.
  split; [ | repeat split; reflexivity].
  split; [reflexivity | ].
  split; [reflexivity | ].
  split; [vm_compute; do 4 right; left; reflexivity | ].
  split; vm_compute; intros H;
    repeat (destruct H as [H | H]; [discriminate | ]); exact H.
Qed.

(** The output read on the turn where [poll] gives the exit code is never
    printed. *)
Remark last_output_not_printed (w : print_site -> option print_error)
    (pid turn : nat) (output : bytes) (code : Z) (rest : list observation) :
  read_loop_from w pid turn ((output, Some code) :: rest) =
    ([Readline pid output; Poll pid (Some code)], Ok tt).
Proof. reflexivity. Qed.

(** * Further properties *)

(** ** The command text *)

(** The string given to the shell is "pip install --no-deps ", the
    arguments, " && pip install " and the same arguments again, where the
    arguments are the install targets and then quiet if it is not empty,
    with one space between them. *)
Theorem shell_command_text (v : version_info) (os : str) (quiet : str) :
  let arguments :=
    join (py " ")
      (install_targets v os ++ (if truthy quiet then [quiet] else [])) in
  join (py " ") (combined_cmd v os quiet) =
    py "pip install --no-deps " ++ arguments
    ++ py " && pip install " ++ arguments.
Proof. exact (combined_cmd_text v os quiet). Qed.

(** ** The install target list *)

(** No install target is listed twice, whatever the version and the
    system. *)
Theorem install_targets_distinct (v : version_info) (os : str) :
  NoDup (install_targets v os).
Proof.
  rewrite install_targets_cases.
  destruct (is_39 v), (str_eqb os (py "nt"));
    cbn [app]; repeat (constructor; [apply mem_false; vm_compute; reflexivity | ]);
    constructor.
Qed.

(** The version gate is monotone: a version at least as great as one that
    passes [is_39] passes it too. *)
Theorem is_39_monotone (v v' : version_info) :
  tuple_ge (int_prefix v') (int_prefix v) = true ->
  is_39 v = true ->
  is_39 v' = true.
Proof.
  intros Hge H39. apply is_39_true_iff in H39. apply is_39_true_iff.
  unfold at_least_3_9 in *. unfold int_prefix, tuple_ge in Hge.
  destruct (Z.eqb_spec (major v') (major v)) as [Hmaj | Hmaj].
  - destruct (Z.eqb_spec (minor v') (minor v)) as [Hmin | Hmin].
    + lia.
    + apply Z.leb_le in Hge. lia.
  - apply Z.leb_le in Hge. lia.
Qed.

Lemma is_39_monotone_witness :
  is_39 {| major := 3; minor := 11; micro := 2;
           releaselevel := py "final"; serial := 0 |} = true.
Proof.
  apply (is_39_monotone python_3_9_0); reflexivity.
Defined.

(** ** Subprocesses started *)

(** A run starts no subprocess, or the first one only, or the first and
    then the second: never more than two, never the second alone. *)
Theorem at_most_two_subprocesses (e : env) (quiet : str) :
  started (trace (main e quiet)) = []
  \/ started (trace (main e quiet)) = [(0, first_call quiet)]
  \/ started (trace (main e quiet))
     = [(0, first_call quiet); (1, second_call e quiet)].
Proof.
  rewrite main_unfold.
  destruct (first_process e) as [obs1 | ]; [ | left; reflexivity].
  pose proof (phase_starts_nothing e 0 obs1) as H1.
  destruct (phase e 0 obs1) as [t1 r1]. cbn [trace fst] in H1.
  assert (Hshort : forall r : result unit,
            started (trace ([Popen 0 (first_call quiet);
                             Print (join (py " ") (first_cmd quiet))] ++ t1,
                            r))
            = [(0, first_call quiet)]).
  { intros r. cbn [trace fst]. rewrite started_app, H1. reflexivity. }
  destruct r1 as [[] | ex | ]; cbn zeta; [ | right; left; apply Hshort ..].
  destruct (second_process e) as [obs2 | ]; [ | right; left; apply Hshort].
  right; right. cbn [trace fst].
  rewrite !started_app, H1, phase_starts_nothing. reflexivity.
Qed.

(** Where one element sits in a concatenation. *)
Lemma app_split_at {A} (l1 l2 pre post : list A) (x : A) :
  l1 ++ l2 = pre ++ x :: post ->
  (exists post1, l1 = pre ++ x :: post1 /\ post = post1 ++ l2)
  \/ (exists pre2, pre = l1 ++ pre2 /\ l2 = pre2 ++ x :: post).
Proof.
  revert pre. induction l1 as [ | y l1 IH]; intros pre H.
  - right. exists pre. auto.
  - destruct pre as [ | p pre]; cbn [app] in H.
    + injection H as -> H. left. exists l1. auto.
    + injection H as -> H. apply IH in H.
      destruct H as [(post1 & -> & ->) | (pre2 & -> & ->)].
      * left. eexists. split; reflexivity.
      * right. eexists. split; reflexivity.
Qed.

(** Right after a subprocess is started its command is printed: the
    argument list joined by spaces, or the very string given to the
    shell. *)
Theorem command_printed_after_start (e : env) (quiet : str)
    (pre post : list event) (pid : nat) (c : popen_call) :
  trace (main e quiet) = pre ++ Popen pid c :: post ->
  exists post', post = Print (command_text c) :: post'.
Proof.
  rewrite main_unfold.
  destruct (first_process e) as [obs1 | ];
    [ | intros H; destruct pre; discriminate].
  pose proof (phase_no_popen e 0 pid obs1 c) as Hno1.
  destruct (phase e 0 obs1) as [t1 r1]. cbn [trace fst] in Hno1.
  assert (Hshort : forall (r : result unit) pre post,
    trace ([Popen 0 (first_call quiet);
            Print (join (py " ") (first_cmd quiet))] ++ t1, r)
      = pre ++ Popen pid c :: post ->
    exists post', post = Print (command_text c) :: post').
  { clear pre post. intros r pre post H. cbn [trace fst app] in H.
    destruct pre as [ | p0 [ | p1 pre]].
    - inversion H; subst. eexists; reflexivity.
    - discriminate.
    - inversion H as [[Hp0 Hp1 Hrest]]. exfalso. apply Hno1.
      rewrite Hrest. apply in_elt. }
  destruct r1 as [[] | ex | ]; cbn zeta; [ | apply Hshort ..].
  destruct (second_process e) as [obs2 | ]; [ | apply Hshort].
  cbn [trace fst]. rewrite app_assoc. intros H.
  apply app_split_at in H.
  destruct H as [(post1 & H & ->) | (pre2 & _ & H)].
  - destruct (Hshort Looping _ _ H) as [post' ->].
    eexists. reflexivity.
  - cbn [app] in H. destruct pre2 as [ | q0 [ | q1 pre2]].
    + inversion H; subst. eexists; reflexivity.
    + discriminate.
    + inversion H as [[Hq0 Hq1 Hrest]]. exfalso.
      apply (phase_no_popen e 1 pid obs2 c).
      rewrite Hrest. apply in_elt.
Qed.

Lemma command_printed_after_start_witness :
  exists post',
    [Print (join (py " ") (combined_cmd python_3_9_0 (py "posix") []));
     Readline 1 []; Poll 1 (Some 0%Z)]
    = Print (command_text (second_call sample_env_silent [])) :: post'.
Proof.
  apply (command_printed_after_start sample_env_silent []
           [Popen 0 (first_call []);
            Print (join (py " ") (first_cmd []));
            Readline 0 []; Poll 0 (Some 0%Z)]
           [Print (join (py " ") (combined_cmd python_3_9_0 (py "posix") []));
            Readline 1 []; Poll 1 (Some 0%Z)]
           1 (second_call sample_env_silent [])).
  reflexivity.
Defined.

(** Within a read loop every [readline] is on the loop's own subprocess
    and is followed at once by a [poll] of it. *)
Lemma read_loop_read_then_poll (w : print_site -> option print_error)
    (pid turn pid' : nat) (obs : list observation)
    (pre post : list event) (output : bytes) :
  trace (read_loop_from w pid turn obs)
    = pre ++ Readline pid' output :: post ->
  pid' = pid /\ exists status post', post = Poll pid status :: post'.
Proof.
  revert turn pre.
  induction obs as [ | [output1 status] rest IH]; intros turn pre;
    [destruct pre; discriminate | ].
  rewrite read_loop_from_cons. destruct status as [code | ].
  - cbn [trace fst]. destruct pre as [ | p0 [ | p1 [ | p2 pre]]];
      intros H; try discriminate.
    inversion H; subst. split; [reflexivity | do 2 eexists; reflexivity].
  - destruct (print_output_cases (w (OutputLine pid turn)) output1)
      as [-> | [[text ->] | [(text & ex & ->) | ->]]];
      cbn [trace fst app];
      destruct pre as [ | p0 [ | p1 pre]]; cbn [app]; intros H;
      try discriminate;
      try (inversion H; subst;
           split; [reflexivity | do 2 eexists; reflexivity]).
    + inversion H as [[Hp0 Hp1 Hrest]]. exact (IH _ pre Hrest).
    + inversion H as [[Hp0 Hp1 Hrest]].
      destruct pre as [ | p2 pre]; [discriminate | ].
      inversion Hrest as [[Hp2 Hrest']]. exact (IH _ pre Hrest').
    + inversion H as [[Hp0 Hp1 Hrest]].
      destruct pre as [ | p2 [ | p3 pre]]; discriminate.
    + inversion H as [[Hp0 Hp1 Hrest]]. destruct pre; discriminate.
Qed.

Lemma phase_read_then_poll (e : env) (pid pid' : nat)
    (obs : list observation) (pre post : list event) (output : bytes) :
  trace (phase e pid obs) = pre ++ Readline pid' output :: post ->
  pid' = pid /\ exists status post', post = Poll pid status :: post'.
Proof.
  destruct (phase_trace e pid obs) as [-> | [-> _]].
  - apply read_loop_read_then_poll.
  - intros H. destruct pre; discriminate.
Qed.

(** Every [readline] of a run is on a subprocess started before it and is
    followed at once by a [poll] of the same subprocess. *)
Theorem reads_are_polled (e : env) (quiet : str) (pre post : list event)
    (pid : nat) (output : bytes) :
  trace (main e quiet) = pre ++ Readline pid output :: post ->
  (exists c, In (Popen pid c) pre)
  /\ (exists status post', post = Poll pid status :: post').
Proof.
  rewrite main_unfold.
  destruct (first_process e) as [obs1 | ];
    [ | intros H; destruct pre; discriminate].
  pose proof (fun pre post =>
                phase_read_then_poll e 0 pid obs1 pre post output) as Hloop1.
  destruct (phase e 0 obs1) as [t1 r1]. cbn [trace fst] in Hloop1.
  assert (Hshort : forall (r : result unit) pre post,
    trace ([Popen 0 (first_call quiet);
            Print (join (py " ") (first_cmd quiet))] ++ t1, r)
      = pre ++ Readline pid output :: post ->
    (exists c, In (Popen pid c) pre)
    /\ (exists status post', post = Poll pid status :: post')).
  { intros r pre0 post0 H. cbn [trace fst app] in H.
    destruct pre0 as [ | p0 [ | p1 pre0]]; try discriminate.
    inversion H as [[Hp0 Hp1 Hrest]].
    destruct (Hloop1 pre0 post0 Hrest) as [-> Hpoll].
    split; [ | exact Hpoll].
    exists (first_call quiet). left; reflexivity. }
  destruct r1 as [[] | ex | ]; cbn zeta; [ | apply Hshort ..].
  destruct (second_process e) as [obs2 | ]; [ | apply Hshort].
  cbn [trace fst]. rewrite app_assoc. intros H.
  apply app_split_at in H.
  destruct H as [(post1 & H & ->) | (pre2 & -> & H)].
  - destruct (Hshort Looping _ _ H) as [Hstart (status & post' & ->)].
    split; [exact Hstart | ]. do 2 eexists. reflexivity.
  - cbn [app] in H. destruct pre2 as [ | q0 [ | q1 pre2]]; try discriminate.
    inversion H as [[Hq0 Hq1 Hrest]].
    destruct (phase_read_then_poll e 1 pid obs2 pre2 post output Hrest)
      as [-> Hpoll].
    split; [ | exact Hpoll].
    exists (second_call e quiet). apply in_or_app. right.
    left; reflexivity.
Qed.

Lemma reads_are_polled_witness :
  (exists c,
      In (Popen 1 c)
        [Popen 0 (first_call []);
         Print (join (py " ") (first_cmd []));
         Readline 0 []; Poll 0 (Some 0%Z);
         Popen 1 (second_call sample_env_silent []);
         Print (join (py " ") (combined_cmd python_3_9_0 (py "posix") []))])
  /\ (exists status post', [Poll 1 (Some 0%Z)] = Poll 1 status :: post').
Proof.
  apply (reads_are_polled sample_env_silent []
           [Popen 0 (first_call []);
            Print (join (py " ") (first_cmd []));
            Readline 0 []; Poll 0 (Some 0%Z);
            Popen 1 (second_call sample_env_silent []);
            Print (join (py " ") (combined_cmd python_3_9_0 (py "posix") []))]
           [Poll 1 (Some 0%Z)] 1 []).
  reflexivity.
Defined.

(** ** How a run ends *)

(** A read loop raises for one of two causes only: an output that cannot be
    decoded, or a [print] that fails. *)
Lemma read_loop_raise_cause (w : print_site -> option print_error)
    (pid turn : nat) (obs : list observation) (ex : exn) :
  outcome (read_loop_from w pid turn obs) = Raise ex ->
  (ex = UnicodeDecodeError
   /\ Exists (fun output => decode output = None) (running_outputs obs))
  \/ (exists site err, w site = Some err /\ ex = print_exn err).
Proof.
  revert turn.
  induction obs as [ | [output status] rest IH]; intros turn; [discriminate | ].
  rewrite read_loop_from_cons. destruct status as [code | ]; [discriminate | ].
  cbn [running_outputs].
  assert (Hrest :
    outcome (read_loop_from w pid (S turn) rest) = Raise ex ->
    (ex = UnicodeDecodeError
     /\ Exists (fun o => decode o = None) (output :: running_outputs rest))
    \/ (exists site err, w site = Some err /\ ex = print_exn err)).
  { intros H. destruct (IH _ H) as [[Hex Hbad] | Hprint].
    - left. split; [exact Hex | right; exact Hbad].
    - right. exact Hprint. }
  destruct (print_output_spec (w (OutputLine pid turn)) output)
    as [[Hempty ->] | [(text & Hne & Hdec & ->) | [Hdec ->]]].
  - exact Hrest.
  - destruct (w (OutputLine pid turn)) as [err | ] eqn:Hfate;
      cbn [outcome snd]; [ | exact Hrest].
    intros H. injection H as <-. right. exists (OutputLine pid turn), err.
    auto.
  - cbn [outcome snd]. intros H. injection H as <-.
    left. split; [reflexivity | left; exact Hdec].
Qed.

Lemma phase_raise_cause (e : env) (pid : nat) (obs : list observation)
    (ex : exn) :
  outcome (phase e pid obs) = Raise ex ->
  (ex = UnicodeDecodeError
   /\ Exists (fun output => decode output = None) (running_outputs obs))
  \/ (exists site err, print_fate e site = Some err /\ ex = print_exn err).
Proof.
  unfold phase, after_print.
  destruct (print_fate e (CommandLine pid)) as [err | ] eqn:Hfate.
  - cbn [outcome snd]. intros H. injection H as <-.
    right. exists (CommandLine pid), err. auto.
  - apply read_loop_raise_cause.
Qed.

(** [main] returns exactly when both subprocesses can be started, both are
    seen to end, every output read while they run is valid UTF-8, and every
    [print] that is reached succeeds: the two of the command lines and the
    one of each non-empty output read while a subprocess runs. *)
Theorem main_returns_iff (e : env) (quiet : str) :
  outcome (main e quiet) = Ok tt
  <-> exists obs1 obs2,
        first_process e = Some obs1
        /\ second_process e = Some obs2
        /\ completes obs1 /\ Forall decodable (running_outputs obs1)
        /\ completes obs2 /\ Forall decodable (running_outputs obs2)
        /\ print_fate e (CommandLine 0) = None
        /\ print_fate e (CommandLine 1) = None
        /\ prints_succeed (print_fate e) 0 0 (running_outputs obs1)
        /\ prints_succeed (print_fate e) 1 0 (running_outputs obs2).
Proof.
  rewrite main_unfold. split.
  - destruct (first_process e) as [obs1 | ]; [ | discriminate].
    pose proof (phase_returns_iff e 0 obs1) as H1.
    destruct (phase e 0 obs1) as [t1 [[] | ex | ]];
      cbn zeta; cbn [outcome snd] in *; try discriminate.
    destruct (second_process e) as [obs2 | ]; [ | discriminate].
    cbn [outcome snd]. intros H2.
    apply phase_returns_iff in H2.
    destruct (proj1 H1 eq_refl) as (Hp1 & Hend1 & Hdec1 & Hout1).
    destruct H2 as (Hp2 & Hend2 & Hdec2 & Hout2).
    exists obs1, obs2. repeat split; assumption.
  - intros (obs1 & obs2 & -> & -> & Hend1 & Hdec1 & Hend2 & Hdec2
            & Hp1 & Hp2 & Hout1 & Hout2).
    assert (H1 : outcome (phase e 0 obs1) = Ok tt)
      by (apply phase_returns_iff; auto).
    destruct (phase e 0 obs1) as [t1 r1]. cbn [outcome snd] in H1.
    subst r1. cbn zeta. cbn [outcome snd].
    apply phase_returns_iff; auto.
Qed.



(** When every [print] succeeds, a read loop raises exactly when an output
    read while the subprocess runs cannot be decoded. *)
Lemma read_loop_raises_iff (w : print_site -> option print_error)
    (pid turn : nat) (obs : list observation) :
  (forall site, w site = None) ->
  outcome (read_loop_from w pid turn obs) = Raise UnicodeDecodeError
  <-> Exists (fun output => decode output = None) (running_outputs obs).
Proof.
  intros Hw. revert turn.
  induction obs as [ | [output status] rest IH]; intros turn.
  - split; [discriminate | intros H; inversion H].
  - rewrite read_loop_from_cons. destruct status as [code | ].
    + split; [discriminate | intros H; inversion H].
    + cbn [running_outputs]. rewrite Hw.
      destruct (print_output_spec None output)
        as [[Hempty ->] | [(text & Hne & Hdec & ->) | [Hdec ->]]];
        cbn [outcome snd].
      * rewrite IH. subst output.
        split; [intros H; right; exact H | ].
        intros H; inversion H as [? ? Hbad | ? ? Hrest];
          [discriminate | exact Hrest].
      * rewrite IH.
        split; [intros H; right; exact H | ].
        intros H; inversion H as [? ? Hbad | ? ? Hrest];
          [congruence | exact Hrest].
      * split; [intros _; left; exact Hdec | reflexivity].
Qed.

(** If no [print] fails, [main] raises [UnicodeDecodeError] exactly when an
    output read while a subprocess runs is not valid UTF-8: one of the
    first subprocess, or one of the second after the first read loop has
    come to its end. *)
Theorem main_raises_decode_error_iff (e : env) (quiet : str) :
  (forall site, print_fate e site = None) ->
  outcome (main e quiet) = Raise UnicodeDecodeError
  <-> exists obs1,
        first_process e = Some obs1
        /\ (Exists (fun output => decode output = None) (running_outputs obs1)
            \/ (completes obs1 /\ Forall decodable (running_outputs obs1)
                /\ exists obs2,
                     second_process e = Some obs2
                     /\ Exists (fun output => decode output = None)
                          (running_outputs obs2))).
Proof.
  intros Hprint. rewrite main_unfold.
  assert (Hok : forall pid obs,
            outcome (phase e pid obs) = Ok tt
            <-> completes obs /\ Forall decodable (running_outputs obs)).
  { intros pid obs. rewrite phase_returns_iff. split.
    - intros (_ & Hc & Hd & _). auto.
    - intros [Hc Hd]. repeat split; try assumption; [apply Hprint | ].
      intros k o _ _. apply Hprint. }
  assert (Hbad : forall pid obs,
            outcome (phase e pid obs) = Raise UnicodeDecodeError
            <-> Exists (fun o => decode o = None) (running_outputs obs)).
  { intros pid obs. rewrite (phase_printed e pid obs (Hprint _)).
    apply read_loop_raises_iff. exact Hprint. }
  destruct (first_process e) as [obs1 | ].
  2: { split; [discriminate | intros (obs1 & H & _); discriminate]. }
  specialize (Hok 0 obs1) as Hok1. specialize (Hbad 0 obs1) as Hbad1.
  destruct (phase e 0 obs1) as [t1 r1].
  cbn [outcome snd] in Hok1, Hbad1.
  split.
  - intros H. exists obs1. split; [reflexivity | ].
    destruct r1 as [[] | ex | ]; cbn zeta in H; cbn [outcome snd] in H.
    + right. destruct (proj1 Hok1 eq_refl) as [Hend1 Hdec1].
      split; [exact Hend1 | ]. split; [exact Hdec1 | ].
      destruct (second_process e) as [obs2 | ]; [ | discriminate].
      cbn [outcome snd] in H. exists obs2. split; [reflexivity | ].
      apply Hbad in H. exact H.
    + left. apply Hbad1. exact H.
    + discriminate.
  - intros (obs & Heq & H). injection Heq as <-.
    destruct H as [Hb | (Hend1 & Hdec1 & obs2 & -> & Hb2)].
    + apply Hbad1 in Hb. subst r1. reflexivity.
    + rewrite (proj2 Hok1 (conj Hend1 Hdec1)). cbn zeta. cbn [outcome snd].
      apply Hbad. exact Hb2.
Qed.

Lemma main_raises_decode_error_iff_witness :
  outcome (main env_not_utf8 []) = Raise UnicodeDecodeError
  <-> exists obs1,
        first_process env_not_utf8 = Some obs1
        /\ (Exists (fun output => decode output = None) (running_outputs obs1)
            \/ (completes obs1 /\ Forall decodable (running_outputs obs1)
                /\ exists obs2,
                     second_process env_not_utf8 = Some obs2
                     /\ Exists (fun output => decode output = None)
                          (running_outputs obs2))).
Proof.
  apply (main_raises_decode_error_iff env_not_utf8 []).
  reflexivity.
Defined.

(** ** What a run prints *)

Lemma print_output_shown (fate : option print_error) (output : bytes)
    (t : list event) :
  print_output fate output = (t, Ok tt) -> console t = shown output.
Proof.
  unfold print_output, shown. destruct output as [ | b rest].
  - intros H. injection H as <-. reflexivity.
  - destruct (decode (b :: rest)) as [text | ]; [ | discriminate].
    rewrite print_eq. intros H. injection H as <- _. reflexivity.
Qed.

Lemma read_loop_console (w : print_site -> option print_error)
    (pid turn : nat) (obs : list observation) :
  outcome (read_loop_from w pid turn obs) = Ok tt ->
  console (trace (read_loop_from w pid turn obs))
  = flat_map shown (running_outputs obs).
Proof.
  revert turn.
  induction obs as [ | [output status] rest IH]; intros turn;
    [discriminate | ].
  rewrite read_loop_from_cons. destruct status as [code | ]; [reflexivity | ].
  cbn [running_outputs flat_map].
  pose proof (print_output_shown (w (OutputLine pid turn)) output) as Hshown.
  destruct (print_output (w (OutputLine pid turn)) output)
    as [t [[] | ex | ]];
    cbn [trace outcome fst snd]; intros Hok; try discriminate.
  change (Readline pid output :: Poll pid None
            :: t ++ trace (read_loop_from w pid (S turn) rest))
    with ([Readline pid output; Poll pid None]
            ++ t ++ trace (read_loop_from w pid (S turn) rest)).
  rewrite !console_app, (Hshown t eq_refl), (IH _ Hok). reflexivity.
Qed.

Lemma phase_console (e : env) (pid : nat) (obs : list observation) :
  outcome (phase e pid obs) = Ok tt ->
  console (trace (phase e pid obs)) = flat_map shown (running_outputs obs).
Proof.
  intros Hok. rewrite phase_not_raised in *.
  - apply read_loop_console. exact Hok.
  - intros ex. rewrite Hok. discriminate.
  - intros ex. rewrite Hok. discriminate.
Qed.

(** When [main] returns it has printed, in this order and nothing else:
    the first command, one stripped text for each non-empty output read
    while the first subprocess ran, the second command, and one stripped
    text for each non-empty output read while the second subprocess ran.
    An output read together with the exit code is not among them. *)
Theorem console_of_a_run (e : env) (quiet : str)
    (obs1 obs2 : list observation) :
  first_process e = Some obs1 ->
  second_process e = Some obs2 ->
  outcome (main e quiet) = Ok tt ->
  console (trace (main e quiet))
  = [join (py " ") (first_cmd quiet)]
    ++ flat_map shown (running_outputs obs1)
    ++ [join (py " ") (combined_cmd (version e) (os_name e) quiet)]
    ++ flat_map shown (running_outputs obs2).
Proof.
  intros H1 H2. rewrite main_unfold, H1.
  pose proof (phase_console e 0 obs1) as Hc1.
  destruct (phase e 0 obs1) as [t1 [[] | ex | ]];
    cbn zeta; cbn [trace outcome fst snd] in *; try discriminate.
  rewrite H2. cbn [trace outcome fst snd]. intros Hok2.
  rewrite !console_app, (Hc1 eq_refl), (phase_console e 1 obs2 Hok2).
  reflexivity.
Qed.

Lemma console_of_a_run_witness :
  console (trace (main sample_env_nt (py "-q")))
  = [join (py " ") (first_cmd (py "-q"))]
    ++ flat_map shown
         (running_outputs [(collecting_line, None); ([], Some 0%Z)])
    ++ [join (py " ") (combined_cmd python_3_8_5 (py "nt") (py "-q"))]
    ++ flat_map shown
         (running_outputs [(padded_line, None); ([], Some 0%Z)]).
Proof.
  apply (console_of_a_run sample_env_nt (py "-q")
           [(collecting_line, None); ([], Some 0%Z)]
           [(padded_line, None); ([], Some 0%Z)]);
    reflexivity.
Defined.

Lemma console_recode (f : Z -> Z) (t : list event) :
  console (map (recode_event f) t) = console t.
Proof.
  induction t as [ | ev t IH]; [reflexivity | ].
  destruct ev; cbn [map recode_event console flat_map app] in *;
    rewrite ?IH; fold (console (map (recode_event f) t)); fold (console t);
    rewrite ?IH; reflexivity.
Qed.

Lemma started_recode (f : Z -> Z) (t : list event) :
  started (map (recode_event f) t) = started t.
Proof.
  induction t as [ | ev t IH]; [reflexivity | ].
  destruct ev; cbn [map recode_event started flat_map app] in *;
    rewrite ?IH; fold (started (map (recode_event f) t)); fold (started t);
    rewrite ?IH; reflexivity.
Qed.

(** In every run, also one that fails, the exit codes of the subprocesses
    change neither how [main] ends, nor what it prints, nor which commands
    it starts. *)
Theorem exit_codes_never_matter (f : Z -> Z) (e : env) (quiet : str) :
  outcome (main (recode f e) quiet) = outcome (main e quiet)
  /\ console (trace (main (recode f e) quiet))
     = console (trace (main e quiet))
  /\ started (trace (main (recode f e) quiet))
     = started (trace (main e quiet)).
Proof.
  rewrite main_recode. cbn [trace outcome fst snd].
  rewrite console_recode, started_recode. auto.
Qed.

(** ** Decoding and stripping *)

Lemma utf8_decode_ascii (b : list N) :
  Forall (fun x => (x < 0x80)%N) b -> utf8_decode b = Some b.
Proof.
  induction 1 as [ | x b Hx Hb IH]; [reflexivity | ].
  cbn [utf8_decode]. apply N.ltb_lt in Hx. rewrite Hx, IH. reflexivity.
Qed.

(** Bytes below 0x80 decode to themselves. *)
Lemma decode_ascii (output : bytes) :
  ascii_only output -> decode output = Some (map Byte.to_N output).
Proof.
  intros H. unfold decode. apply utf8_decode_ascii.
  apply Forall_map. exact H.
Qed.

Lemma ascii_never_undecodable (obs : list observation) :
  Forall ascii_only (running_outputs obs) ->
  ~ Exists (fun output => decode output = None) (running_outputs obs).
Proof.
  intros Hall Hbad. apply Exists_exists in Hbad.
  destruct Hbad as (output & Hin & Hnone).
  rewrite Forall_forall in Hall.
  rewrite (decode_ascii output (Hall output Hin)) in Hnone. discriminate.
Qed.

(** Subprocesses that can be started and whose output, as far as it is read
    while they run, is plain ASCII never make [main] raise
    [UnicodeDecodeError]; and if no [print] fails either, [main] raises
    nothing. *)
Theorem ascii_output_never_raises (e : env) (quiet : str)
    (obs1 obs2 : list observation) :
  first_process e = Some obs1 ->
  second_process e = Some obs2 ->
  Forall ascii_only (running_outputs obs1) ->
  Forall ascii_only (running_outputs obs2) ->
  outcome (main e quiet) <> Raise UnicodeDecodeError
  /\ ((forall site, print_fate e site = None) ->
      forall ex, outcome (main e quiet) <> Raise ex).
Proof.
  intros H1 H2 Hascii1 Hascii2.
  assert (Hphase : forall pid obs ex,
            Forall ascii_only (running_outputs obs) ->
            outcome (phase e pid obs) = Raise ex ->
            exists site err,
              print_fate e site = Some err /\ ex = print_exn err).
  { intros pid obs ex Hascii Hraise.
    apply phase_raise_cause in Hraise.
    destruct Hraise as [[_ Hbad] | Hprint]; [ | exact Hprint].
    destruct (ascii_never_undecodable obs Hascii Hbad). }
  assert (Hmain : forall ex,
            outcome (main e quiet) = Raise ex ->
            exists site err,
              print_fate e site = Some err /\ ex = print_exn err).
  { intros ex. rewrite main_unfold, H1.
    pose proof (Hphase 0 obs1) as Hp1.
    destruct (phase e 0 obs1) as [t1 [[] | ex1 | ]];
      cbn zeta; cbn [outcome snd] in *.
    - rewrite H2. cbn [outcome snd]. apply Hphase. exact Hascii2.
    - intros H. injection H as ->. apply Hp1; [exact Hascii1 | reflexivity].
    - discriminate. }
  split.
  - intros Hraise. destruct (Hmain _ Hraise) as (site & err & _ & Hex).
    destruct err; discriminate.
  - intros Hprint ex Hraise.
    destruct (Hmain _ Hraise) as (site & err & Hfate & _).
    rewrite Hprint in Hfate. discriminate.
Qed.

Lemma ascii_output_never_raises_witness :
  outcome (main sample_env_nt []) <> Raise UnicodeDecodeError
  /\ forall ex, outcome (main sample_env_nt []) <> Raise ex.
Proof.
  destruct (ascii_output_never_raises sample_env_nt []
              [(collecting_line, None); ([], Some 0%Z)]
              [(padded_line, None); ([], Some 0%Z)]) as [Hdec Hall].
  - reflexivity.
  - reflexivity.
  - repeat constructor; vm_compute; reflexivity.
  - repeat constructor; vm_compute; reflexivity.
  - split; [exact Hdec | ]. apply Hall. reflexivity.
Defined.

Lemma lstrip_split (x : str) :
  exists w, x = w ++ lstrip x /\ all_space w.
Proof.
  induction x as [ | c x IH].
  - exists []. split; [reflexivity | constructor].
  - cbn [lstrip]. destruct (isspace c) eqn:Hc.
    + destruct IH as (w & Hx & Hw). exists (c :: w).
      split; [cbn [app]; congruence | constructor; assumption].
    + exists []. split; [reflexivity | constructor].
Qed.

Lemma lstrip_head (x : str) (c : N) (r : str) :
  lstrip x = c :: r -> isspace c = false.
Proof.
  induction x as [ | d x IH]; [discriminate | ].
  cbn [lstrip]. destruct (isspace d) eqn:Hd; [exact IH | ].
  intros H. injection H as <- _. exact Hd.
Qed.

Lemma rstrip_split (x : str) :
  exists w, x = rstrip x ++ w /\ all_space w.
Proof.
  unfold rstrip. destruct (lstrip_split (rev x)) as (w & Hx & Hw).
  exists (rev w). split.
  - rewrite <- rev_app_distr, <- Hx, rev_involutive. reflexivity.
  - apply Forall_rev. exact Hw.
Qed.

Lemma rstrip_last (x : str) (c : N) (s : str) :
  rstrip x = c :: s -> isspace (last (c :: s) c) = false.
Proof.
  unfold rstrip. intros H.
  destruct (lstrip (rev x)) as [ | d r] eqn:Hl; [discriminate | ].
  rewrite <- H. cbn [rev]. rewrite last_last.
  exact (lstrip_head _ _ _ Hl).
Qed.

(** [strip] takes away white space at the two ends and nothing else. *)
Lemma strip_split (x : str) :
  exists w1 w2, x = w1 ++ strip x ++ w2 /\ all_space w1 /\ all_space w2.
Proof.
  unfold strip.
  destruct (lstrip_split x) as (w1 & Hx & Hw1).
  destruct (rstrip_split (lstrip x)) as (w2 & Hy & Hw2).
  exists w1, w2. rewrite <- Hy. auto.
Qed.

(** What [strip] leaves has no white space at either end. *)
Lemma strip_trimmed (x : str) : trimmed (strip x).
Proof.
  unfold strip. destruct (rstrip (lstrip x)) as [ | c s] eqn:Hs;
    [exact I | ].
  split; [ | exact (rstrip_last _ _ _ Hs)].
  destruct (rstrip_split (lstrip x)) as (w & Hy & _).
  rewrite Hs in Hy. exact (lstrip_head x c (s ++ w) Hy).
Qed.

(** Every text a read loop prints is an output read while the subprocess
    ran, decoded, less white space at its two ends and nothing else; the
    text itself neither starts nor ends with white space. *)
Theorem printed_text_is_stripped_line (w : print_site -> option print_error)
    (pid turn : nat) (obs : list observation) (text : str) :
  In (Print text) (trace (read_loop_from w pid turn obs)) ->
  trimmed text
  /\ exists output decoded w1 w2,
       In output (running_outputs obs)
       /\ output <> []
       /\ decode output = Some decoded
       /\ decoded = w1 ++ text ++ w2
       /\ all_space w1 /\ all_space w2.
Proof.
  revert turn.
  induction obs as [ | [output status] rest IH]; intros turn; [intros [] | ].
  rewrite read_loop_from_cons. destruct status as [code | ].
  - cbn [trace fst]. intros [H | [H | []]]; discriminate.
  - cbn [running_outputs].
    assert (Hrest :
      In (Print text) (trace (read_loop_from w pid (S turn) rest)) ->
      trimmed text
      /\ exists output0 decoded w1 w2,
           In output0 (output :: running_outputs rest)
           /\ output0 <> []
           /\ decode output0 = Some decoded
           /\ decoded = w1 ++ text ++ w2
           /\ all_space w1 /\ all_space w2).
    { intros Hin. destruct (IH _ Hin) as [Ht (o & d & w1 & w2 & Ho & Hrest)].
      split; [exact Ht | ]. exists o, d, w1, w2.
      split; [right; exact Ho | exact Hrest]. }
    destruct (print_output_spec (w (OutputLine pid turn)) output)
      as [[Hempty ->] | [(decoded & Hne & Hdec & ->) | [Hdec ->]]].
    + cbn [trace fst app]. intros [H | [H | H]]; try discriminate. auto.
    + assert (Hthis : Print text = Print (strip decoded) ->
        trimmed text
        /\ exists output0 decoded0 w1 w2,
             In output0 (output :: running_outputs rest)
             /\ output0 <> []
             /\ decode output0 = Some decoded0
             /\ decoded0 = w1 ++ text ++ w2
             /\ all_space w1 /\ all_space w2).
      { intros H. injection H as ->. split; [apply strip_trimmed | ].
        destruct (strip_split decoded) as (w1 & w2 & Hsplit & Hw1 & Hw2).
        exists output, decoded, w1, w2.
        repeat split; try assumption. left; reflexivity. }
      destruct (w (OutputLine pid turn)) as [err | ]; cbn [trace fst app].
      * intros [H | [H | [H | []]]]; try discriminate. auto.
      * intros [H | [H | [H | H]]]; try discriminate; auto.
    + cbn [trace fst]. intros [H | [H | []]]; discriminate.
Qed.

Lemma printed_text_is_stripped_line_witness :
  trimmed (py "ok")
  /\ exists output decoded w1 w2,
       In output (running_outputs [(padded_line, None); ([], Some 0%Z)])
       /\ output <> []
       /\ decode output = Some decoded
       /\ decoded = w1 ++ py "ok" ++ w2
       /\ all_space w1 /\ all_space w2.
Proof.
  apply (printed_text_is_stripped_line (fun _ => None) 0 0
           [(padded_line, None); ([], Some 0%Z)] (py "ok")).
  vm_compute. do 2 right. left. reflexivity.
Defined.

Lemma lstrip_all_space (x : str) : all_space x -> lstrip x = [].
Proof.
  induction 1 as [ | c x Hc Hx IH]; [reflexivity | ].
  cbn [lstrip]. rewrite Hc. exact IH.
Qed.

(** An empty read prints nothing, but a non-empty output that is white
    space only, such as a bare newline, prints an empty text. *)
Theorem blank_line_prints_empty_text (fate : option print_error)
    (output : bytes) (decoded : str) :
  output <> [] ->
  decode output = Some decoded ->
  all_space decoded ->
  print_output fate output
  = ([Print []],
     match fate with
     | None => Ok tt
     | Some err => Raise (print_exn err)
     end)
  /\ print_output fate [] = ([], Ok tt).
Proof.
  intros Hne Hdec Hspace. split; [ | reflexivity].
  unfold print_output. destruct output as [ | b more]; [congruence | ].
  rewrite Hdec, print_eq. unfold strip.
  rewrite (lstrip_all_space decoded Hspace). reflexivity.
Qed.

Lemma blank_line_prints_empty_text_witness :
  print_output None [x0a] = ([Print []], Ok tt)
  /\ print_output None [] = ([], Ok tt).
Proof.
  apply (blank_line_prints_empty_text None [x0a] [10%N]).
  - discriminate.
  - reflexivity.
  - repeat constructor.
Defined.
